(** * Rias Research Assistant: the client-side services, embedded in Rocq

  The development follows the TypeScript sources:
  - [services/zipService.ts]: [convertXlsxToCsv], [convertPptxToText],
    [addNodeToZip], [downloadResultsAsZip];
  - [services/generationService.ts]: [uploadAndProcessFile],
    [checkJobStatus], [getDownloadUrl];
  - [App.tsx]: the controller ([handleFilesChange], [handleGenerate]) with
    the module-level [pollInterval] handle;
  - [components/FileViewer.tsx]: the preview dispatch.

  JavaScript strings are modelled as [string] (bytes of the UTF-8 text),
  arrays as [list], [T | null | undefined] as [option T]. *)

From Stdlib Require Import Strings.String Strings.Ascii Lists.List Arith.Arith
Arith.PeanoNat Bool.Bool Lia Numbers.DecimalString Init.Decimal.
Import ListNotations.
Open Scope string_scope.

(** ** JavaScript string primitives used by the sources *)

Module JsString.

(** The double quote, the comma and the line feed. *)
Definition dquote : ascii := "034"%char.
Definition comma : ascii := ","%char.
Definition newline : ascii := "010"%char.
Definition creturn : ascii := "013"%char.

Definition str (c : ascii) : string := String c EmptyString.

(** Template-literal rendering of a non-negative integer,
    as in [`${index + 1}`] and [`${response.status}`]. *)
Definition dec (n : nat) : string := NilZero.string_of_uint (Nat.to_uint n).

(** [Array.prototype.join(sep)] on an array of strings. *)
Definition join (sep : string) (l : list string) : string := String.concat sep l.

(** [Array.prototype.map((x, index) => f x index)], the index starting at [i]. *)
Fixpoint mapi_from {A B : Type} (f : A -> nat -> B) (i : nat) (l : list A) : list B :=
  match l with
  | [] => []
  | x :: l' => f x i :: mapi_from f (S i) l'
  end.

Definition mapi {A B : Type} (f : A -> nat -> B) (l : list A) : list B :=
  mapi_from f 0 l.

(** [s.replace(/c/g, r)] for a one-character pattern [c]: every occurrence
    of [c] is replaced by [r]. *)
Fixpoint replace_all_char (c : ascii) (r : string) (s : string) : string :=
  match s with
  | EmptyString => EmptyString
  | String a s' =>
      if Ascii.eqb a c then r ++ replace_all_char c r s'
      else String a (replace_all_char c r s')
  end.

(** Removes the first [n] characters. *)
Fixpoint drop (n : nat) (s : string) : string :=
  match n, s with
  | O, _ => s
  | S n', String _ s' => drop n' s'
  | S _, EmptyString => EmptyString
  end.

(** [s.replace(pat, rep)] with a string pattern: only the FIRST occurrence
    of [pat] is replaced ([rep] holds no [$], so it is taken literally).
    With an empty pattern JavaScript inserts [rep] in front; so does this. *)
Fixpoint replace_first (pat rep : string) (s : string) : string :=
  if String.prefix pat s then rep ++ drop (String.length pat) s
  else match s with
       | EmptyString => EmptyString
       | String a s' => String a (replace_first pat rep s')
       end.

(** [s.endsWith(suf)]: some suffix of [s] is [suf]. *)
Fixpoint ends_with (suf s : string) : bool :=
  String.eqb s suf
  || match s with
     | EmptyString => false
     | String _ s' => ends_with suf s'
     end.

(** [s.slice(-1)]: the last character, or the empty string. *)
Fixpoint slice_last (s : string) : string :=
  match s with
  | EmptyString => EmptyString
  | String c EmptyString => str c
  | String _ s' => slice_last s'
  end.

(** [s.includes(c)] for a character [c]. *)
Fixpoint has_char (c : ascii) (s : string) : bool :=
  match s with
  | EmptyString => false
  | String a s' => Ascii.eqb a c || has_char c s'
  end.

(** The number of places of [s] at which [pat] occurs. *)
Fixpoint occurrences (pat s : string) : nat :=
  (if String.prefix pat s then 1 else 0)
  + match s with
    | EmptyString => 0
    | String _ s' => occurrences pat s'
    end.

(** JavaScript truthiness of a [string | null | undefined] value. *)
Definition truthy (o : option string) : bool :=
  match o with
  | Some s => negb (String.eqb s "")
  | None => false
  end.

(** [a || b] for a [string | null | undefined] value [a] and a string [b]. *)
Definition or_else (a : option string) (b : string) : string :=
  match a with
  | Some s => if String.eqb s "" then b else s
  | None => b
  end.

End JsString.

Import JsString.

(** ** types.ts *)

(** [FileType]: the three kinds of generated artifact. *)
Inductive FileType := DOCX | PPTX | XLSX.

(** A slide record [{ title; content }]. *)
Record Slide := mkSlide { title : string; content : string }.

(** A spreadsheet cell; [None] is a [null] or [undefined] cell. *)
Definition Cell := option string.

(** [GeneratedFile.content]: its shape depends on the kind (HTML string for
    docx, slides for pptx, grid of cells for xlsx). *)
Inductive Content :=
| HtmlContent (html : string)
| SlidesContent (slides : list Slide)
| GridContent (grid : list (list Cell)).

Record GeneratedFile := mkFile {
  file_id : string;
  file_name : string;
  file_content : Content
}.

(** [file.type], the tag that goes with the shape of the content. *)
Definition file_type (f : GeneratedFile) : FileType :=
  match file_content f with
  | HtmlContent _ => DOCX
  | SlidesContent _ => PPTX
  | GridContent _ => XLSX
  end.

Inductive NodeType := Folder | File.

(** [TreeNode]: [children] and [fileData] are optional properties.  The
    induction principle is stated by hand further down ([TreeNode_forest_ind]). *)
Unset Elimination Schemes.
Inductive TreeNode :=
| mkNode (id name : string) (type : NodeType)
         (children : option (list TreeNode)) (fileData : option GeneratedFile).
Set Elimination Schemes.

(** ** JSZip, as far as [zipService.ts] uses it

    A JSZip object is a root prefix over a table [files] keyed by full member
    name; the objects returned by [folder] share the table of the object they
    come from, so the table is threaded through the calls and a handle is its
    root prefix.  Only the file members are kept here: [folder] also records a
    directory member, which never replaces a member already in the table and
    is not counted among the file entries. *)

Module JSZip.

(** The file members, full name and content; writing an existing name
    replaces its content. *)
Definition Files := list (string * string).

Definition forceTrailingSlash (path : string) : string :=
  if String.eqb (slice_last path) "/" then path else path ++ "/".

(** [zip.folder(name)]: the handle of the sub-folder; an empty [name] gives
    back the handle itself. *)
Definition folder (root name : string) : string :=
  if String.eqb name "" then root else forceTrailingSlash (root ++ name).

(** [files[name] = content] *)
Fixpoint set_member (name content : string) (files : Files) : Files :=
  match files with
  | [] => [(name, content)]
  | (n, c) :: files' =>
      if String.eqb n name then (name, content) :: files'
      else (n, c) :: set_member name content files'
  end.

(** [zip.file(name, content)] on the handle with prefix [root]. *)
Definition file (root name content : string) (files : Files) : Files :=
  set_member (root ++ name) content files.

End JSZip.

(** ** services/zipService.ts *)

Module ZipService.

(** The cell of [row.map(cell => ...)]: [cell ?? ''] turned into a string,
    every double quote replaced by two (the global regex replace), and the
    result wrapped in double quotes. *)
Definition quote_cell (cell : Cell) : string :=
  let s := match cell with Some s => s | None => "" end in
  str dquote ++ replace_all_char dquote (String dquote (str dquote)) s ++ str dquote.

Definition convertXlsxToCsv (data : list (list Cell)) : string :=
  join (str newline) (map (fun row => join (str comma) (map quote_cell row)) data).

(** The separator between slides: forty dashes and a line feed. *)
Definition slide_separator : string :=
  "----------------------------------------" ++ str newline.

(** [`Slide ${index + 1}: ${slide.title}\n${slide.content}\n\n`] *)
Definition slide_block (slide : Slide) (index : nat) : string :=
  "Slide " ++ dec (index + 1) ++ ": " ++ title slide ++ str newline
    ++ content slide ++ str newline ++ str newline.

Definition convertPptxToText (slides : list Slide) : string :=
  join slide_separator (mapi slide_block slides).

(** The [switch (file.type)] of [addNodeToZip]: the member name and the
    content written for a generated file. *)
Definition archive_entry (file : GeneratedFile) : string * string :=
  let fileName := file_name file in
  match file_content file with
  | HtmlContent html => (replace_first ".docx" ".html" fileName, html)
  | SlidesContent slides => (replace_first ".pptx" ".txt" fileName, convertPptxToText slides)
  | GridContent grid => (replace_first ".xlsx" ".csv" fileName, convertXlsxToCsv grid)
  end.

(** [addNodeToZip(zip, node)], [zip] being the handle with prefix [root];
    [children.forEach] is the left fold over the children. *)
Fixpoint addNodeToZip (root : string) (node : TreeNode) (files : JSZip.Files) : JSZip.Files :=
  match node with
  | mkNode _ name Folder children _ =>
      let folder := JSZip.folder root name in
      match children with
      | Some cs => fold_left (fun fs child => addNodeToZip folder child fs) cs files
      | None => files
      end
  | mkNode _ _ File _ (Some file) =>
      let (fileName, content) := archive_entry file in
      JSZip.file root fileName content files
  | mkNode _ _ File _ None => files
  end.

(** What [downloadResultsAsZip] hands to [saveAs]: the archive generated
    from the table, and the name it is saved under. *)
Record SavedArchive := mkArchive { saved_as : string; members : JSZip.Files }.

Definition downloadResultsAsZip (tree : list TreeNode) : SavedArchive :=
  let files := fold_left (fun fs node => addNodeToZip "" node fs) tree [] in
  mkArchive "Rias_Research_Results.zip" files.

End ZipService.

Import ZipService.

(** ** services/generationService.ts *)

(** [FileTree] of [types.ts], the node of the result tree sent by the backend. *)
Unset Elimination Schemes.
Inductive FileTree :=
| mkFileTree (name : string) (type : NodeType) (path : option string)
             (children : option (list FileTree)).
Set Elimination Schemes.

(** A parsed JSON body: an object whose properties hold strings (the upload,
    status and error bodies) or the array of result-tree nodes. *)
Inductive Json :=
| JObject (fields : list (string * string))
| JArray (nodes : list FileTree).

(** [j.key]: the property, [None] when it is [undefined]. *)
Fixpoint field (key : string) (fields : list (string * string)) : option string :=
  match fields with
  | [] => None
  | (k, v) :: fields' => if String.eqb k key then Some v else field key fields'
  end.

Definition prop (j : Json) (key : string) : option string :=
  match j with
  | JObject fields => field key fields
  | JArray _ => None
  end.

(** [`${x}`] for a [string | undefined]. *)
Definition template (o : option string) : string :=
  match o with Some s => s | None => "undefined" end.

(** A [Response]: the status code, and what [response.json()] settles to,
    the parsed body or the message of the error it rejects with. *)
Record Response := mkResponse { status : nat; body : string + Json }.

(** [response.ok]: the status is in the range 200 to 299. *)
Definition ok (r : Response) : bool :=
  Nat.leb 200 (status r) && Nat.leb (status r) 299.

(** What [fetch] settles to: a rejection (no response) or a response. *)
Inductive FetchResult :=
| NetworkError (message : string)
| Responded (r : Response).

(** What an [async] function settles to. *)
Inductive Outcome (A : Type) :=
| Returned (a : A)
| Thrown (message : string).
Arguments Returned {A} a.
Arguments Thrown {A} message.

Module GenerationService.

Definition API_BASE_URL : string := "http://localhost:8000".

(** The URLs the two functions fetch. *)
Definition upload_url : string := API_BASE_URL ++ "/upload-and-process/".
Definition status_url (sessionId : string) : string := API_BASE_URL ++ "/status/" ++ sessionId.

(** [await response.json()] *)
Definition json (r : Response) : Outcome Json :=
  match body r with
  | inl message => Thrown message
  | inr j => Returned j
  end.

(** [uploadAndProcessFile(file)], from the point where its
    [fetch(upload_url, { method: POST, body: formData })] has settled.  The
    [catch] logs and rethrows, so what is thrown inside the [try] is what the
    function throws. *)
Definition uploadAndProcessFile (fetched : FetchResult) : Outcome Json :=
  match fetched with
  | NetworkError message => Thrown message
  | Responded response =>
      if negb (ok response) then
        match json response with
        | Thrown message => Thrown message
        | Returned err =>
            Thrown (or_else (prop err "detail")
                      ("HTTP error! status: " ++ dec (status response)))
        end
      else
        match json response with
        | Thrown message => Thrown message
        | Returned result => Returned result
        end
  end.

(** [checkJobStatus(sessionId)], from the point where its
    [fetch(status_url sessionId, { method: GET })] has settled. *)
Definition checkJobStatus (fetched : FetchResult) : Outcome Json :=
  match fetched with
  | NetworkError message => Thrown message
  | Responded response =>
      if negb (ok response) then
        match json response with
        | Thrown message => Thrown message
        | Returned err =>
            Thrown (or_else (prop err "detail")
                      ("HTTP error! status: " ++ dec (status response)))
        end
      else
        match json response with
        | Thrown message => Thrown message
        | Returned result => Returned result
        end
  end.

Definition getDownloadUrl (sessionId : string) : string :=
  API_BASE_URL ++ "/download-result/" ++ sessionId.

End GenerationService.

(** ** The HTTP client over bodies of any JSON shape

    [response.json()] settles to whatever JSON the server sent, and the error
    branch of the client reads [err.detail] of a value of type [any].
    [Json] above holds the bodies of the declared types; [Value] holds every
    JSON value, and the two functions are spelled out once more over it.
    [GenerationService]'s are their restriction to the bodies of the
    declared types. *)

Module AnyBody.

(** A JSON value as [JSON.parse] builds it.  A number is known by the text
    that [String] gives for it, which is [0] for zero and for no other
    number; an object by its own properties. *)
Unset Elimination Schemes.
Inductive Value :=
| VNull
| VBool (b : bool)
| VNumber (text : string)
| VString (s : string)
| VArray (items : list Value)
| VObject (props : list (string * Value)).
Set Elimination Schemes.

(** [ToBoolean]: what [||] and [if] test. *)
Definition toBoolean (v : Value) : bool :=
  match v with
  | VNull => false
  | VBool b => b
  | VNumber text => negb (text =? "0")%string
  | VString s => negb (s =? "")%string
  | VArray _ => true
  | VObject _ => true
  end.

(** The own property [key] of an object. *)
Fixpoint own (key : string) (props : list (string * Value)) : option Value :=
  match props with
  | [] => None
  | (k, v) :: props' => if String.eqb k key then Some v else own key props'
  end.

(** The messages of the two [TypeError]s a JSON value can cause (the
    wording is that of V8). *)
Definition null_property_error : string :=
  "Cannot read properties of null (reading 'detail')".
Definition convert_error : string :=
  "Cannot convert object to primitive value".

(** [err.detail]: a [TypeError] on [null]; the own property of an object,
    [undefined] when it has none of this name; [undefined] on a boolean, a
    number, a string and an array, none of which has a property [detail]. *)
Definition detail (err : Value) : Outcome (option Value) :=
  match err with
  | VNull => Thrown null_property_error
  | VObject props => Returned (own "detail" props)
  | _ => Returned None
  end.

(** [String(v)], as [new Error(v)] computes its message.  An array is its
    elements joined by commas, [null] giving the empty text; an object is
    [[object Object]], unless it has an own property [toString], which is
    not a function and makes the conversion throw a [TypeError] ([None]). *)
Fixpoint toString (v : Value) : option string :=
  match v with
  | VNull => Some "null"
  | VBool b => Some (if b then "true" else "false")
  | VNumber text => Some text
  | VString s => Some s
  | VArray items =>
      option_map (join ",")
        ((fix each (l : list Value) : option (list string) :=
            match l with
            | [] => Some []
            | x :: l' =>
                match match x with VNull => Some "" | _ => toString x end, each l' with
                | Some t, Some ts => Some (t :: ts)
                | _, _ => None
                end
            end) items)
  | VObject props =>
      if existsb (fun kv => (fst kv =? "toString")%string) props then None
      else Some "[object Object]"
  end.

(** [a || b] for a property value [a] and a string [b]. *)
Definition or_else (a : option Value) (b : string) : Value :=
  match a with
  | Some v => if toBoolean v then v else VString b
  | None => VString b
  end.

(** The message of what [throw new Error(v)] throws: the text of [v], or the
    message of the [TypeError] of the conversion. *)
Definition thrown_message (v : Value) : string :=
  match toString v with
  | Some text => text
  | None => convert_error
  end.

Record Response := mkResponse { status : nat; body : string + Value }.

Definition ok (r : Response) : bool :=
  Nat.leb 200 (status r) && Nat.leb (status r) 299.

Inductive FetchResult :=
| NetworkError (message : string)
| Responded (r : Response).

(** [await response.json()] *)
Definition json (r : Response) : Outcome Value :=
  match body r with
  | inl message => Thrown message
  | inr j => Returned j
  end.

(** [uploadAndProcessFile(file)], from the point where its [fetch] has
    settled. *)
Definition uploadAndProcessFile (fetched : FetchResult) : Outcome Value :=
  match fetched with
  | NetworkError message => Thrown message
  | Responded response =>
      if negb (ok response) then
        match json response with
        | Thrown message => Thrown message
        | Returned err =>
            match detail err with
            | Thrown message => Thrown message
            | Returned d =>
                Thrown (thrown_message
                          (or_else d ("HTTP error! status: " ++ dec (status response))))
            end
        end
      else
        match json response with
        | Thrown message => Thrown message
        | Returned result => Returned result
        end
  end.

(** [checkJobStatus(sessionId)], from the point where its [fetch] has
    settled. *)
Definition checkJobStatus (fetched : FetchResult) : Outcome Value :=
  match fetched with
  | NetworkError message => Thrown message
  | Responded response =>
      if negb (ok response) then
        match json response with
        | Thrown message => Thrown message
        | Returned err =>
            match detail err with
            | Thrown message => Thrown message
            | Returned d =>
                Thrown (thrown_message
                          (or_else d ("HTTP error! status: " ++ dec (status response))))
            end
        end
      else
        match json response with
        | Thrown message => Thrown message
        | Returned result => Returned result
        end
  end.

End AnyBody.






(** ** App.tsx: the controller

    The component state, the module-level [pollInterval], the intervals of
    the event loop and the requests in flight make one world; user actions,
    interval ticks and settled requests are the events that move it.  An
    [async] function is cut at its [await]: the part before issues the
    request, the part after runs when the request settles. *)

Module App.

Import GenerationService.

(** A [File] chosen in the uploader, known by its name. *)
Definition BrowserFile := string.

Record AppState := mkState {
  uploadedFiles : list BrowserFile;
  isLoading : bool;
  error : option string;
  fileTree : option Json;
  statusMessage : option string;
  downloadUrl : option string;
  selectedFile : option string
}.

(** A network call, by the place that issues it. *)
Inductive Call :=
| CallUpload (file : BrowserFile)       (* POST upload_url *)
| CallStatus (session_id : string)      (* GET status_url session_id *)
| CallTree (url : string).              (* GET url *)

(** The URL a call fetches. *)
Definition call_url (c : Call) : string :=
  match c with
  | CallUpload _ => upload_url
  | CallStatus session_id => status_url session_id
  | CallTree url => url
  end.

(** What waits for a request in flight. *)
Inductive Awaiting :=
| AwaitUpload                           (* handleGenerate, at uploadAndProcessFile *)
| AwaitStatus (session_id : string)     (* the interval callback, at checkJobStatus *)
| AwaitTree.                            (* the interval callback, at the tree fetch *)

Record World := mkWorld {
  ui : AppState;
  pollInterval : option nat;            (* the module-level handle *)
  timers : list (nat * string);         (* running intervals, with the session_id of their callback *)
  next_timer : nat;
  pending : list (nat * Awaiting);      (* requests in flight *)
  next_request : nat;
  calls : list Call                     (* the calls issued so far, oldest first *)
}.

Definition initial : World :=
  mkWorld (mkState [] false None None None None None) None [] 1 [] 0 [].

(** [clearInterval(id)] *)
Definition clearInterval (id : nat) (ts : list (nat * string)) : list (nat * string) :=
  filter (fun t => negb (Nat.eqb (fst t) id)) ts.

(** [if (pollInterval) clearInterval(pollInterval)] *)
Definition clear_poll (w : World) : list (nat * string) :=
  match pollInterval w with
  | Some id => clearInterval id (timers w)
  | None => timers w
  end.

Fixpoint lookup {A : Type} (id : nat) (l : list (nat * A)) : option A :=
  match l with
  | [] => None
  | (k, a) :: l' => if Nat.eqb k id then Some a else lookup id l'
  end.

Definition remove {A : Type} (id : nat) (l : list (nat * A)) : list (nat * A) :=
  filter (fun e => negb (Nat.eqb (fst e) id)) l.

(** Issuing a request: it is logged and waits under a fresh number. *)
Definition issue (c : Call) (a : Awaiting) (w : World) : World :=
  mkWorld (ui w) (pollInterval w) (timers w) (next_timer w)
    (pending w ++ [(next_request w, a)]) (S (next_request w)) (calls w ++ [c]).

Definition with_ui (u : AppState) (w : World) : World :=
  mkWorld u (pollInterval w) (timers w) (next_timer w) (pending w) (next_request w) (calls w).

Definition with_timers (ts : list (nat * string)) (w : World) : World :=
  mkWorld (ui w) (pollInterval w) ts (next_timer w) (pending w) (next_request w) (calls w).

(** [handleFilesChange(files)] *)
Definition handleFilesChange (files : list BrowserFile) (w : World) : World :=
  let u := ui w in
  with_timers (clear_poll w)
    (with_ui (mkState files (isLoading u) None None None None None) w).

(** [handleFileClick(path)] and [handleCloseViewer()] *)
Definition handleFileClick (path : string) (w : World) : World :=
  let u := ui w in
  with_ui (mkState (uploadedFiles u) (isLoading u) (error u) (fileTree u)
             (statusMessage u) (downloadUrl u) (Some path)) w.

Definition handleCloseViewer (w : World) : World :=
  let u := ui w in
  with_ui (mkState (uploadedFiles u) (isLoading u) (error u) (fileTree u)
             (statusMessage u) (downloadUrl u) None) w.

(** [handleGenerate()], up to its [await uploadAndProcessFile(file)]. *)
Definition handleGenerate (w : World) : World :=
  match uploadedFiles (ui w) with
  | [] => w
  | file :: _ =>
      issue (CallUpload file) AwaitUpload
        (with_timers (clear_poll w)
           (with_ui (mkState (uploadedFiles (ui w)) true None None
                       (Some "Uploading file...") None None) w))
  end.

(** [handleGenerate()], after the upload has settled: on success the status
    message is set and the interval started, its handle stored in
    [pollInterval]; on failure the [catch] reports it. *)
Definition upload_settled (fetched : FetchResult) (w : World) : World :=
  let u := ui w in
  match uploadAndProcessFile fetched with
  | Returned result =>
      let session_id := template (prop result "session_id") in
      let id := next_timer w in
      mkWorld
        (mkState (uploadedFiles u) (isLoading u) (error u) (fileTree u)
           (Some ("Processing... (Job ID: " ++ session_id ++ ")"))
           (downloadUrl u) (selectedFile u))
        (Some id) (timers w ++ [(id, session_id)]) (S id)
        (pending w) (next_request w) (calls w)
  | Thrown message =>
      with_ui (mkState (uploadedFiles u) false (Some ("Upload failed: " ++ message))
                 (fileTree u) (statusMessage u) (downloadUrl u) (selectedFile u)) w
  end.

(** The interval callback, up to its [await checkJobStatus(session_id)]. *)
Definition tick (session_id : string) (w : World) : World :=
  issue (CallStatus session_id) (AwaitStatus session_id) w.

(** The interval callback, after the status request has settled. *)
Definition status_settled (session_id : string) (fetched : FetchResult) (w : World) : World :=
  let u := ui w in
  match checkJobStatus fetched with
  | Returned statusResult =>
      if match prop statusResult "status" with
         | Some st => String.eqb st "complete"
         | None => false
         end
      then
        let w1 :=
          with_timers (clear_poll w)
            (with_ui (mkState (uploadedFiles u) false (error u) (fileTree u)
                        (Some "Processing complete!")
                        (Some (getDownloadUrl session_id)) (selectedFile u)) w) in
        if truthy (prop statusResult "tree_url")
        then issue (CallTree (API_BASE_URL ++ template (prop statusResult "tree_url")))
               AwaitTree w1
        else w1
      else
        with_ui (mkState (uploadedFiles u) (isLoading u) (error u) (fileTree u)
                   (Some ("Processing... (Job ID: " ++ session_id ++ ")"))
                   (downloadUrl u) (selectedFile u)) w
  | Thrown _ =>
      with_timers (clear_poll w)
        (with_ui (mkState (uploadedFiles u) false
                    (Some "Error checking job status. Please try again.")
                    (fileTree u) (statusMessage u) (downloadUrl u) (selectedFile u)) w)
  end.

(** The interval callback, after the tree request has settled: the body is
    stored whatever the status code; a rejected fetch or a body that is not
    JSON is reported. *)
Definition tree_settled (fetched : FetchResult) (w : World) : World :=
  let u := ui w in
  let failed :=
    with_ui (mkState (uploadedFiles u) (isLoading u)
               (Some "Processing complete, but failed to load results tree.")
               (fileTree u) (statusMessage u) (downloadUrl u) (selectedFile u)) w in
  match fetched with
  | NetworkError _ => failed
  | Responded treeResponse =>
      match json treeResponse with
      | Thrown _ => failed
      | Returned treeData =>
          with_ui (mkState (uploadedFiles u) (isLoading u) (error u) (Some treeData)
                     (statusMessage u) (downloadUrl u) (selectedFile u)) w
      end
  end.

(** [UploadView]: the Generate button is rendered when no file is being
    viewed and [downloadUrl] is not set, and it is enabled when nothing is
    loading and a file is selected. *)
Definition generate_enabled (w : World) : bool :=
  negb (truthy (selectedFile (ui w)))
  && negb (truthy (downloadUrl (ui w)))
  && negb (isLoading (ui w))
  && negb (Nat.eqb (List.length (uploadedFiles (ui w))) 0).

Inductive Event :=
| FilesChange (files : list BrowserFile)        (* the uploader calls onFilesChange *)
| FileClick (path : string)
| CloseViewer
| Generate                                      (* handleGenerate is called *)
| ClickGenerate                                 (* the Generate button is clicked *)
| Tick (timer : nat)                            (* a running interval fires *)
| Settle (request : nat) (fetched : FetchResult). (* a request in flight settles *)

(** One event; [None] when it cannot happen in [w] (a button that is not
    there, an interval that is not running, a request that is not in flight). *)
Definition step (w : World) (e : Event) : option World :=
  match e with
  | FilesChange files => Some (handleFilesChange files w)
  | FileClick path => Some (handleFileClick path w)
  | CloseViewer => Some (handleCloseViewer w)
  | Generate => Some (handleGenerate w)
  | ClickGenerate => if generate_enabled w then Some (handleGenerate w) else None
  | Tick t =>
      match lookup t (timers w) with
      | Some session_id => Some (tick session_id w)
      | None => None
      end
  | Settle id fetched =>
      match lookup id (pending w) with
      | Some a =>
          let w' := mkWorld (ui w) (pollInterval w) (timers w) (next_timer w)
                      (remove id (pending w)) (next_request w) (calls w) in
          Some match a with
               | AwaitUpload => upload_settled fetched w'
               | AwaitStatus session_id => status_settled session_id fetched w'
               | AwaitTree => tree_settled fetched w'
               end
      | None => None
      end
  end.

Fixpoint run (events : list Event) (w : World) : option World :=
  match events with
  | [] => Some w
  | e :: events' =>
      match step w e with
      | Some w' => run events' w'
      | None => None
      end
  end.

Definition is_status (c : Call) : bool :=
  match c with CallStatus _ => true | _ => false end.

Definition is_tree (c : Call) : bool :=
  match c with CallTree _ => true | _ => false end.

Definition is_upload_wait (e : nat * Awaiting) : bool :=
  match snd e with AwaitUpload => true | _ => false end.

(** The states of the job, read off what [UploadView] shows: the spinner
    while loading (an upload in flight or not), else the download button,
    else the error, else the plain Generate button. *)
Inductive Phase := Idle | Uploading | Processing | Complete | Errored.

Definition phase (w : World) : Phase :=
  if isLoading (ui w) then
    if existsb is_upload_wait (pending w) then Uploading else Processing
  else if truthy (downloadUrl (ui w)) then Complete
  else if truthy (error (ui w)) then Errored
  else Idle.

(** A 2xx response with a JSON object as its body. *)
Definition ok_json (fields : list (string * string)) : FetchResult :=
  Responded (mkResponse 200 (inr (JObject fields))).

End App.

(** ** components/FileViewer.tsx *)

Module FileViewer.

(** [s.split(sep)] for a one-character separator: never empty. *)
Fixpoint split_from (sep : ascii) (current : string) (s : string) : list string :=
  match s with
  | EmptyString => [current]
  | String c s' =>
      if Ascii.eqb c sep then current :: split_from sep "" s'
      else split_from sep (current ++ str c) s'
  end.

Definition split (sep : ascii) (s : string) : list string := split_from sep "" s.

(** [arr.pop()]: the last element, [None] for an empty array. *)
Fixpoint pop (l : list string) : option string :=
  match l with
  | [] => None
  | [x] => Some x
  | _ :: l' => pop l'
  end.

(** [s.toLowerCase()]; the letters A to Z are the only characters whose
    lower case is one of the ASCII letters the extensions below are made of. *)
Definition lower_char (c : ascii) : ascii :=
  let n := nat_of_ascii c in
  if Nat.leb 65 n && Nat.leb n 90 then ascii_of_nat (n + 32) else c.

Fixpoint toLowerCase (s : string) : string :=
  match s with
  | EmptyString => EmptyString
  | String c s' => String (lower_char c) (toLowerCase s')
  end.

(** [encodeURIComponent]: every byte of the UTF-8 text is percent-encoded
    except letters, digits and the marks - _ . ! ~ * ' ( ). *)
Definition unreserved (c : ascii) : bool :=
  let n := nat_of_ascii c in
  (Nat.leb 65 n && Nat.leb n 90) || (Nat.leb 97 n && Nat.leb n 122)
  || (Nat.leb 48 n && Nat.leb n 57)
  || existsb (Ascii.eqb c) (list_ascii_of_string "-_.!~*'()").

Definition hex_digit (n : nat) : ascii :=
  match String.get n "0123456789ABCDEF" with
  | Some d => d
  | None => "0"%char
  end.

Definition percent_encode (c : ascii) : string :=
  let n := nat_of_ascii c in
  String "%"%char (String (hex_digit (n / 16)) (str (hex_digit (n mod 16)))).

Fixpoint encodeURIComponent (s : string) : string :=
  match s with
  | EmptyString => EmptyString
  | String c s' =>
      if unreserved c then String c (encodeURIComponent s')
      else percent_encode c ++ encodeURIComponent s'
  end.

(** [list.includes(x)] *)
Definition includes (l : list string) (x : string) : bool := existsb (String.eqb x) l.

Definition STATIC_BASE_URL : string := "http://localhost:8000" ++ "/static-results".

Definition fullFileUrl (filePath : string) : string := STATIC_BASE_URL ++ "/" ++ filePath.

(** [filePath.split('.').pop()?.toLowerCase()] *)
Definition fileExtension (filePath : string) : option string :=
  option_map toLowerCase (pop (split "."%char filePath)).

(** What the component renders: the iframe on [viewerUrl], or the download
    link alone. *)
Inductive View :=
| IframeView (viewerUrl : string)
| DownloadLinkView (href : string).

Definition office_viewer : string := "https://view.officeapps.live.com/op/embed.aspx?src=".

Definition FileViewer (filePath : string) : View :=
  let fileExtension := fileExtension filePath in
  if includes ["docx"; "pptx"; "xlsx"] (or_else fileExtension "") then
    IframeView (office_viewer ++ encodeURIComponent (fullFileUrl filePath))
  else if match fileExtension with Some e => String.eqb e "pdf" | None => false end
          || includes ["png"; "jpg"; "txt"; "json"] (or_else fileExtension "") then
    IframeView (fullFileUrl filePath)
  else
    DownloadLinkView (fullFileUrl filePath).

(** The three strategies of the preview, and the view each one gives. *)
Inductive Strategy := OfficeViewer | DirectLoad | DownloadOnly.

Definition view_of (st : Strategy) (filePath : string) : View :=
  match st with
  | OfficeViewer => IframeView (office_viewer ++ encodeURIComponent (fullFileUrl filePath))
  | DirectLoad => IframeView (fullFileUrl filePath)
  | DownloadOnly => DownloadLinkView (fullFileUrl filePath)
  end.

(** The extension of a path: the lower-cased text after its last dot. *)
Definition extension (filePath : string) : string := or_else (fileExtension filePath) "".

(** The strategy assigned to an extension. *)
Definition strategy_of (ext : string) : Strategy :=
  if in_dec string_dec ext ["docx"; "pptx"; "xlsx"] then OfficeViewer
  else if in_dec string_dec ext ["pdf"; "png"; "jpg"; "txt"; "json"] then DirectLoad
  else DownloadOnly.

End FileViewer.

(** ** Scenarios of the controller *)

Module Scenario.

Import GenerationService App.

(** Two calls of [handleGenerate], the second before the first upload
    settles; then both uploads succeed. *)
Definition double_submit : list Event :=
  [FilesChange ["paper.pdf"];
   Generate;
   Generate;
   Settle 0 (ok_json [("message", "started"); ("session_id", "job-1"); ("filename", "paper.pdf")]);
   Settle 1 (ok_json [("message", "started"); ("session_id", "job-2"); ("filename", "paper.pdf")])].

(** The same through the Generate button only.  Two ticks of the first job
    overlap; both status requests fail, each failure re-enabling the button
    while an upload started in between is still in flight. *)
Definition double_submit_by_button : list Event :=
  [FilesChange ["paper.pdf"];
   ClickGenerate;
   Settle 0 (ok_json [("session_id", "job-1")]);
   Tick 1;
   Tick 1;
   Settle 1 (NetworkError "Failed to fetch");
   ClickGenerate;
   Settle 2 (NetworkError "Failed to fetch");
   ClickGenerate;
   Settle 3 (ok_json [("session_id", "job-2")]);
   Settle 4 (ok_json [("session_id", "job-3")])].

(** A job is submitted, two polls answer [processing], the third answers
    [complete] with a tree URL, and the tree request settles to [tree]. *)
Definition three_polls (file session_id tree_url : string) (tree : FetchResult) : list Event :=
  [FilesChange [file];
   ClickGenerate;
   Settle 0 (ok_json [("message", "started"); ("session_id", session_id); ("filename", file)]);
   Tick 1;
   Settle 1 (ok_json [("status", "processing"); ("session_id", session_id)]);
   Tick 1;
   Settle 2 (ok_json [("status", "processing"); ("session_id", session_id)]);
   Tick 1;
   Settle 3 (ok_json [("status", "complete"); ("session_id", session_id);
                      ("result_url", "/download-result/" ++ session_id);
                      ("tree_url", tree_url)]);
   Settle 4 tree].

(** The tree request fails: [fetch] rejects, or the body is not JSON. *)
Definition tree_fetch_fails (fetched : FetchResult) : Prop :=
  match fetched with
  | NetworkError _ => True
  | Responded r => exists m, body r = inl m
  end.

(** A job being polled: the world after the upload settled and one tick. *)
Definition polling_world : World :=
  mkWorld
    (mkState ["paper.pdf"] true None None (Some "Processing... (Job ID: job-1)") None None)
    (Some 1) [(1, "job-1")] 2 [(1, AwaitStatus "job-1")] 2
    [CallUpload "paper.pdf"; CallStatus "job-1"].

(** The number of uploads in flight. *)
Definition uploads (w : World) : nat :=
  List.length (filter is_upload_wait (pending w)).

(** A run in which [handleGenerate] is never entered while an upload is in
    flight. *)
Fixpoint run_serial (events : list Event) (w : World) : option World :=
  match events with
  | [] => Some w
  | e :: events' =>
      if match e with
         | Generate | ClickGenerate => negb (Nat.eqb (uploads w) 0)
         | _ => false
         end
      then None
      else match step w e with
           | Some w' => run_serial events' w'
           | None => None
           end
  end.

(** No interval runs, or the one held in [pollInterval] does, and then no
    upload is in flight; at most one upload is in flight. *)
Definition single_timer (w : World) : Prop :=
  (timers w = []
   \/ exists t sid, timers w = [(t, sid)] /\ pollInterval w = Some t /\ uploads w = 0)
  /\ uploads w <= 1.

End Scenario.

(** ** A standard CSV decoder (RFC 4180)

    The reader against which the serialisation is checked.  Fields are
    separated by commas and records by a line feed or by carriage return and
    line feed; a field is either bare (it then holds no double quote) or
    enclosed in double quotes, inside which a double quote is written twice
    and commas and line breaks are ordinary characters.  An empty line is a
    record without fields, and a line break at the very end opens no record.
    Malformed input is rejected. *)

Module Csv.

(** The list with [x] added at its end. *)
Definition snoc {A : Type} (l : list A) (x : A) : list A := (l ++ [x])%list.

Inductive Mode :=
| RecordStart   (* at the start of a record *)
| FieldStart    (* just after a comma *)
| Unquoted      (* inside a bare field *)
| Quoted        (* inside a quoted field *)
| QuoteSeen     (* a quote was read inside a quoted field *)
| CrSeen.       (* a carriage return ended the record; a line feed must follow *)

Fixpoint parse (m : Mode) (field : string) (row : list string)
  (rows : list (list string)) (s : string) : option (list (list string)) :=
  match s with
  | EmptyString =>
      match m with
      | RecordStart => Some rows
      | FieldStart | Unquoted | QuoteSeen => Some (snoc rows (snoc row field))
      | Quoted | CrSeen => None
      end
  | String c s' =>
      match m with
      | Quoted =>
          if Ascii.eqb c dquote then parse QuoteSeen field row rows s'
          else parse Quoted (field ++ str c) row rows s'
      | QuoteSeen =>
          if Ascii.eqb c dquote then parse Quoted (field ++ str dquote) row rows s'
          else if Ascii.eqb c comma then parse FieldStart "" (snoc row field) rows s'
          else if Ascii.eqb c newline then parse RecordStart "" [] (snoc rows (snoc row field)) s'
          else if Ascii.eqb c creturn then parse CrSeen "" [] (snoc rows (snoc row field)) s'
          else None
      | RecordStart =>
          if Ascii.eqb c dquote then parse Quoted "" row rows s'
          else if Ascii.eqb c comma then parse FieldStart "" (snoc row "") rows s'
          else if Ascii.eqb c newline then parse RecordStart "" [] (snoc rows row) s'
          else if Ascii.eqb c creturn then parse CrSeen "" [] (snoc rows row) s'
          else parse Unquoted (str c) row rows s'
      | FieldStart =>
          if Ascii.eqb c dquote then parse Quoted "" row rows s'
          else if Ascii.eqb c comma then parse FieldStart "" (snoc row "") rows s'
          else if Ascii.eqb c newline then parse RecordStart "" [] (snoc rows (snoc row "")) s'
          else if Ascii.eqb c creturn then parse CrSeen "" [] (snoc rows (snoc row "")) s'
          else parse Unquoted (str c) row rows s'
      | Unquoted =>
          if Ascii.eqb c dquote then None
          else if Ascii.eqb c comma then parse FieldStart "" (snoc row field) rows s'
          else if Ascii.eqb c newline then parse RecordStart "" [] (snoc rows (snoc row field)) s'
          else if Ascii.eqb c creturn then parse CrSeen "" [] (snoc rows (snoc row field)) s'
          else parse Unquoted (field ++ str c) row rows s'
      | CrSeen =>
          if Ascii.eqb c newline then parse RecordStart "" [] rows s' else None
      end
  end.

Definition decode (s : string) : option (list (list string)) :=
  parse RecordStart "" [] [] s.

End Csv.

(** The text a cell stands for: [cell ?? ''] as a string. *)
Definition cell_text (cell : Cell) : string :=
  match cell with Some s => s | None => "" end.

(** The grid without its last row when that row has no cell: such a row
    leaves no trace in the text. *)
Fixpoint without_empty_last (data : list (list Cell)) : list (list Cell) :=
  match data with
  | [] => []
  | r :: rest =>
      match rest with
      | [] => match r with [] => [] | _ :: _ => [r] end
      | _ :: _ => r :: without_empty_last rest
      end
  end.

(** ** The layout of the slide text, piece by piece *)

Inductive Piece :=
| PHeader (position : nat) (slide_title : string)  (* the line [Slide N: <title>] *)
| PBody (body : string)                            (* the body and a blank line *)
| PSeparator.                                      (* the line of dashes *)

Definition render_piece (p : Piece) : string :=
  match p with
  | PHeader n t => "Slide " ++ dec n ++ ": " ++ t ++ str newline
  | PBody b => b ++ str newline ++ str newline
  | PSeparator => slide_separator
  end.

Definition render (l : list Piece) : string :=
  fold_right (fun p acc => render_piece p ++ acc) "" l.

(** Header and body of each slide in turn, a separator between two slides;
    [pos] is the position of the first slide of [slides]. *)
Fixpoint slide_layout (pos : nat) (slides : list Slide) : list Piece :=
  match slides with
  | [] => []
  | s :: rest =>
      PHeader pos (title s) :: PBody (content s) ::
        match rest with
        | [] => []
        | _ :: _ => PSeparator :: slide_layout (S pos) rest
        end
  end.

Definition is_separator (p : Piece) : bool :=
  match p with PSeparator => true | _ => false end.

Definition headers_of (l : list Piece) : list (nat * string) :=
  flat_map (fun p => match p with PHeader n t => [(n, t)] | _ => [] end) l.

Definition bodies_of (l : list Piece) : list string :=
  flat_map (fun p => match p with PBody b => [b] | _ => [] end) l.

(** A slide without any dash in its title and content. *)
Definition dash_free (s : Slide) : Prop :=
  has_char "-"%char (title s) = false /\ has_char "-"%char (content s) = false.

(** A run of [k] dashes. *)
Fixpoint dashes (k : nat) : string :=
  match k with
  | 0 => ""
  | S k' => String "-"%char (dashes k')
  end.

(** The places at which the separator line occurs inside the slide's own
    text: in its title or in its content, each taken with the line feed
    that follows it in the output. *)
Definition inner_occurrences (s : Slide) : nat :=
  occurrences slide_separator (title s ++ str newline)
  + occurrences slide_separator (content s ++ str newline).

(** A slide whose content is the line of dashes itself. *)
Definition dash_line_slide : Slide :=
  mkSlide "T" "----------------------------------------".

(** ** The file nodes of a forest that carry an artifact *)

(** Every file node with [fileData] anywhere in the tree, parents before
    children and siblings in order, each with the names of the folder nodes
    above it, outermost first. *)
Fixpoint artifacts_of (folders : list string) (node : TreeNode)
  : list (list string * GeneratedFile) :=
  match node with
  | mkNode _ name type children fileData =>
      (match type, fileData with
       | File, Some file => [(folders, file)]
       | _, _ => []
       end
       ++ match children with
          | Some cs =>
              flat_map (artifacts_of match type with
                                     | Folder => (folders ++ [name])%list
                                     | File => folders
                                     end) cs
          | None => []
          end)%list
  end.

(** The data model of the tree: only folder nodes have children. *)
Fixpoint files_are_leaves (node : TreeNode) : bool :=
  match node with
  | mkNode _ _ Folder (Some cs) _ => forallb files_are_leaves cs
  | mkNode _ _ File (Some (_ :: _)) _ => false
  | _ => true
  end.

Definition forest_artifacts (tree : list TreeNode) : list (list string * GeneratedFile) :=
  flat_map (artifacts_of []) tree.

(** The member path that mirrors the nesting: every enclosing folder name
    followed by a slash, then the member name. *)
Definition nested_path (folders : list string) (name : string) : string :=
  String.concat "/" (folders ++ [name])%list.

(** The prefix JSZip reaches by entering [folders] one after the other. *)
Definition zip_root (folders : list string) : string :=
  fold_left JSZip.folder folders "".

(** A folder name that makes one path segment: not empty, no final slash. *)
Definition well_named (name : string) : Prop :=
  name <> "" /\ slice_last name <> "/".

(** What entering a folder called [name] adds to the path: the name followed
    by a slash; nothing for an empty name, and no second slash after a name
    that already ends in one. *)
Definition folder_segment (name : string) : string :=
  if (name =? "")%string then ""
  else if (slice_last name =? "/")%string then name
  else name ++ "/".

(** The member path under [folders], segment after segment. *)
Definition segment_path (folders : list string) (name : string) : string :=
  String.concat "" (map folder_segment folders) ++ name.

(** The member expected for an artifact under [folders]. *)
Definition expected_member (a : list string * GeneratedFile) : string * string :=
  (zip_root (fst a) ++ fst (archive_entry (snd a)), snd (archive_entry (snd a))).

(** Writing a list of members, one after the other. *)
Definition write_all (l : list (string * string)) (files : JSZip.Files) : JSZip.Files :=
  fold_left (fun fs e => JSZip.set_member (fst e) (snd e) fs) l files.

(** A file node with [fileData] placed under another file node. *)
Definition file_under_file : list TreeNode :=
  [mkNode "1" "a" File
     (Some [mkNode "2" "b" File None (Some (mkFile "f2" "b.docx" (HtmlContent "inner")))])
     (Some (mkFile "f1" "a.docx" (HtmlContent "outer")))].

(** Two file nodes of the same name, side by side. *)
Definition twin_forest : list TreeNode :=
  [mkNode "1" "a" File None (Some (mkFile "f1" "a.docx" (HtmlContent "first")));
   mkNode "2" "a" File None (Some (mkFile "f2" "a.docx" (HtmlContent "second")))].

(** Induction on a node together with the lists of its descendants. *)
Fixpoint TreeNode_forest_ind (P : TreeNode -> Prop) (Q : list TreeNode -> Prop)
  (Hnil : Q [])
  (Hcons : forall n l, P n -> Q l -> Q (n :: l))
  (Hleaf : forall id name ty fd, P (mkNode id name ty None fd))
  (Hnode : forall id name ty cs fd, Q cs -> P (mkNode id name ty (Some cs) fd))
  (n : TreeNode) {struct n} : P n :=
  match n with
  | mkNode id name ty None fd => Hleaf id name ty fd
  | mkNode id name ty (Some cs) fd =>
      Hnode id name ty cs fd
        ((fix forest (l : list TreeNode) : Q l :=
            match l with
            | [] => Hnil
            | x :: l' =>
                Hcons x l' (TreeNode_forest_ind P Q Hnil Hcons Hleaf Hnode x) (forest l')
            end) cs)
  end.

(** ** UploadView (components/FileViewer.tsx, second part) *)

Module UploadView.

(** What the view shows below the uploader: the error paragraph, the
    download link, and the Generate button with its [disabled] flag and its
    label. *)
Record Rendered := mkRendered {
  error_text : option string;
  download_link : option string;
  generate_button : option (bool * string)
}.

(** [UploadView], from the props [App] passes down unchanged. *)
Definition UploadView (u : App.AppState) : Rendered :=
  mkRendered
    (if truthy (App.error u) && negb (App.isLoading u) then App.error u else None)
    (if truthy (App.downloadUrl u) && negb (App.isLoading u) then App.downloadUrl u else None)
    (if negb (truthy (App.downloadUrl u)) then
       Some (App.isLoading u || Nat.eqb (List.length (App.uploadedFiles u)) 0,
             if App.isLoading u then or_else (App.statusMessage u) "Generating..."
             else "Generate Results")
     else None).

End UploadView.

(** [filePath.split('/').pop()], the label [FileViewer] shows for the file
    (in its header and on its download link). *)
Definition displayName (filePath : string) : option string :=
  FileViewer.pop (FileViewer.split "/"%char filePath).

(** ** components/MainContent.tsx *)

Module MainContent.

Inductive Screen :=
| ViewerScreen (filePath : string) (view : FileViewer.View)
| UploadScreen (rendered : UploadView.Rendered).

(** [selectedFile ? <FileViewer filePath={selectedFile} /> : <UploadView ... />] *)
Definition MainContent (u : App.AppState) : Screen :=
  if truthy (App.selectedFile u)
  then ViewerScreen (template (App.selectedFile u))
         (FileViewer.FileViewer (template (App.selectedFile u)))
  else UploadScreen (UploadView.UploadView u).

End MainContent.

(** ** components/FileUploader.tsx *)

Module FileUploader.

(** [arr.splice(index, 1)] on a copy: the element at [index] is left out;
    an index past the end leaves the array as it is. *)
Definition splice1 {A : Type} (index : nat) (l : list A) : list A :=
  (firstn index l ++ skipn (S index) l)%list.

(** [handleDrop] and [handleFileChange]: [onFilesChange] is called only
    with a non-empty list of files. *)
Definition handleDrop (files : list App.BrowserFile) (w : App.World) : App.World :=
  match files with
  | [] => w
  | _ :: _ => App.handleFilesChange files w
  end.

Definition handleFileChange (files : list App.BrowserFile) (w : App.World) : App.World :=
  match files with
  | [] => w
  | _ :: _ => App.handleFilesChange files w
  end.

(** [handleRemoveFile(index)] *)
Definition handleRemoveFile (index : nat) (w : App.World) : App.World :=
  App.handleFilesChange (splice1 index (App.uploadedFiles (App.ui w))) w.

End FileUploader.

(** ** components/Sidebar.tsx *)

Module Sidebar.

(** A rendered row: its left padding in pixels, the name shown, and for a
    folder whether it is open, for a file the path its click passes to
    [onFileClick]. *)
Inductive Row :=
| FolderRow (padding : nat) (name : string) (isOpen : bool)
| FileRow (padding : nat) (name : string) (path : option string).

(** [FileTreeNode]: the rows it renders.  Each instance has its own [isOpen]
    state, [false] at first; [isOpen] gives it by the position of the
    instance (the child indices from the root). *)
Fixpoint FileTreeNode (isOpen : list nat -> bool) (position : list nat) (level : nat)
  (node : FileTree) : list Row :=
  match node with
  | mkFileTree name Folder _ children =>
      FolderRow (level * 16) name (isOpen position)
      :: (if isOpen position then
            match children with
            | Some cs =>
                (fix each (index : nat) (cs : list FileTree) : list Row :=
                   match cs with
                   | [] => []
                   | child :: cs' =>
                       (FileTreeNode isOpen (position ++ [index]) (level + 1) child
                        ++ each (S index) cs')%list
                   end) 0 cs
            | None => []
            end
          else [])
  | mkFileTree name File path _ => [FileRow (level * 16) name path]
  end.

(** The rows of the root nodes, from index [index] on. *)
Fixpoint roots (isOpen : list nat -> bool) (index : nat) (nodes : list FileTree) : list Row :=
  match nodes with
  | [] => []
  | node :: nodes' =>
      (FileTreeNode isOpen [index] 0 node ++ roots isOpen (S index) nodes')%list
  end.

(** [Sidebar]: the rows, or [None] for the text shown when there is no
    result yet ([fileTree] is [null] or empty). *)
Definition Sidebar (isOpen : list nat -> bool) (fileTree : option (list FileTree))
  : option (list Row) :=
  match fileTree with
  | Some (node :: nodes) => Some (roots isOpen 0 (node :: nodes))
  | _ => None
  end.

(** The row of a node whose folder is closed. *)
Definition closed_row (node : FileTree) : Row :=
  match node with
  | mkFileTree name Folder _ _ => FolderRow 0 name false
  | mkFileTree name File path _ => FileRow 0 name path
  end.

(** The nodes a user can reach by opening folders: a node, and under a
    folder its children. *)
Fixpoint reachable (node : FileTree) : nat :=
  match node with
  | mkFileTree _ Folder _ (Some cs) => S (list_sum (map reachable cs))
  | _ => 1
  end.

Definition row_padding (r : Row) : nat :=
  match r with FolderRow p _ _ => p | FileRow p _ _ => p end.

(** The rows of the children of an open folder at [position] and [level],
    from index [index] on. *)
Fixpoint children_rows (isOpen : list nat -> bool) (position : list nat) (level : nat)
  (index : nat) (cs : list FileTree) : list Row :=
  match cs with
  | [] => []
  | child :: cs' =>
      (FileTreeNode isOpen (position ++ [index]) (level + 1) child
       ++ children_rows isOpen position level (S index) cs')%list
  end.

End Sidebar.

(** Induction on a result-tree node together with the lists of its
    descendants. *)
Fixpoint FileTree_forest_ind (P : FileTree -> Prop) (Q : list FileTree -> Prop)
  (Hnil : Q [])
  (Hcons : forall n l, P n -> Q l -> Q (n :: l))
  (Hleaf : forall name ty path, P (mkFileTree name ty path None))
  (Hnode : forall name ty path cs, Q cs -> P (mkFileTree name ty path (Some cs)))
  (n : FileTree) {struct n} : P n :=
  match n with
  | mkFileTree name ty path None => Hleaf name ty path
  | mkFileTree name ty path (Some cs) =>
      Hnode name ty path cs
        ((fix forest (l : list FileTree) : Q l :=
            match l with
            | [] => Hnil
            | x :: l' =>
                Hcons x l' (FileTree_forest_ind P Q Hnil Hcons Hleaf Hnode x) (forest l')
            end) cs)
  end.

(** ** Auxiliary definitions for the further properties *)

(** The content stored under a member name. *)
Fixpoint find_member (name : string) (files : JSZip.Files) : option string :=
  match files with
  | [] => None
  | (n, c) :: files' => if String.eqb n name then Some c else find_member name files'
  end.

(** The extension of each kind of artifact and the one its entry gets. *)
Definition kind_extension (t : FileType) : string :=
  match t with DOCX => ".docx" | PPTX => ".pptx" | XLSX => ".xlsx" end.

Definition entry_extension (t : FileType) : string :=
  match t with DOCX => ".html" | PPTX => ".txt" | XLSX => ".csv" end.

(** The value of a hexadecimal digit, and the reading of percent-encoded
    text: [%XY] is the byte of value [16 X + Y], any other character itself. *)
Definition hex_value (c : ascii) : nat :=
  let n := nat_of_ascii c in
  if Nat.leb 48 n && Nat.leb n 57 then n - 48
  else if Nat.leb 65 n && Nat.leb n 70 then n - 55
  else 0.

Fixpoint percent_decode (s : string) : string :=
  match s with
  | EmptyString => EmptyString
  | String c s1 =>
      if Ascii.eqb c "%"%char then
        match s1 with
        | String h (String l s3) =>
            String (ascii_of_nat (16 * hex_value h + hex_value l)) (percent_decode s3)
        | _ => String c (percent_decode s1)
        end
      else String c (percent_decode s1)
  end.

(** Every character of [s] satisfies [p]. *)
Fixpoint all_chars (p : ascii -> bool) (s : string) : bool :=
  match s with
  | EmptyString => true
  | String c s' => p c && all_chars p s'
  end.

Definition is_tick (e : App.Event) : bool :=
  match e with App.Tick _ => true | _ => false end.

(** The identifiers of the intervals started so far are below [next_timer]. *)
Definition timers_fresh (w : App.World) : Prop :=
  (forall t, In t (map fst (App.timers w)) -> t < App.next_timer w)
  /\ (forall p, App.pollInterval w = Some p -> p < App.next_timer w).

(** While loading, no download URL is set. *)
Definition loading_without_download (w : App.World) : Prop :=
  App.isLoading (App.ui w) = true -> App.downloadUrl (App.ui w) = None.

(** ** Examples *)

Example dec_example : dec 0 = "0" /\ dec 7 = "7" /\ dec 404 = "404".
Proof. repeat split. Qed.

Example replace_first_example :
  replace_first ".docx" ".html" "report.docx" = "report.html"
  /\ replace_first ".docx" ".html" "report.DOCX" = "report.DOCX"
  /\ replace_first ".pptx" ".txt" "v1.pptx.bak" = "v1.txt.bak".
Proof. repeat split. Qed.

Example zip_example :
  members (downloadResultsAsZip
    [mkNode "1" "out" Folder
       (Some [mkNode "2" "report" File None
                (Some (mkFile "f1" "report.docx" (HtmlContent "<p>x</p>")));
              mkNode "3" "empty" File None None;
              mkNode "4" "data" Folder
                (Some [mkNode "5" "t" File None
                         (Some (mkFile "f2" "t.xlsx" (GridContent [[Some "1"]])))])
                None])
       None])
  = [("out/report.html", "<p>x</p>");
     ("out/data/t.csv", str dquote ++ "1" ++ str dquote)].
Proof. reflexivity. Qed.

Example csv_example :
  convertXlsxToCsv [[Some "a"; None]; [Some (str dquote ++ "b")]]
  = str dquote ++ "a" ++ str dquote ++ "," ++ str dquote ++ str dquote ++ str newline
    ++ str dquote ++ str dquote ++ str dquote ++ "b" ++ str dquote.
Proof. reflexivity. Qed.

Example csv_decode_example :
  Csv.decode (convertXlsxToCsv [[Some "a,b"; None]; [Some (str dquote ++ "b" ++ str newline)]])
  = Some [["a,b"; ""]; [str dquote ++ "b" ++ str newline]].
Proof. reflexivity. Qed.

(** The decoder on text it did not come from: bare fields, CRLF line ends, a
    final line break, and two malformed texts. *)
Example csv_decode_plain :
  Csv.decode ("a,b" ++ str creturn ++ str newline ++ "c," ++ str newline)
  = Some [["a"; "b"]; ["c"; ""]]
  /\ Csv.decode ("a" ++ str dquote ++ "b") = None
  /\ Csv.decode (str dquote ++ "a" ++ str dquote ++ "b") = None
  /\ Csv.decode "" = Some [].
Proof. repeat split. Qed.

Example pptx_example :
  convertPptxToText [mkSlide "T" "c"; mkSlide "U" "d"]
  = "Slide 1: T" ++ str newline ++ "c" ++ str newline ++ str newline
    ++ slide_separator
    ++ "Slide 2: U" ++ str newline ++ "d" ++ str newline ++ str newline.
Proof. reflexivity. Qed.

Example encode_example :
  FileViewer.encodeURIComponent "http://localhost:8000/static-results/a b/r.docx"
  = "http%3A%2F%2Flocalhost%3A8000%2Fstatic-results%2Fa%20b%2Fr.docx".
Proof. reflexivity. Qed.

(** [polling_world] is the world reached by selecting a file, clicking
    Generate, the upload succeeding and the interval firing once. *)
Example polling_world_reached :
  App.run [App.FilesChange ["paper.pdf"]; App.ClickGenerate;
           App.Settle 0 (App.ok_json [("session_id", "job-1")]); App.Tick 1] App.initial
  = Some Scenario.polling_world.
Proof. reflexivity. Qed.

(** ** Lemmas on strings *)

Lemma append_assoc (a b c : string) : (a ++ b) ++ c = a ++ (b ++ c).
Proof. induction a as [|x a IH]; simpl; [reflexivity | now rewrite IH]. Qed.

Lemma append_empty_r (a : string) : a ++ "" = a.
Proof. induction a as [|x a IH]; simpl; [reflexivity | now rewrite IH]. Qed.

(** ** The spreadsheet serialisation *)

Section CsvRoundTrip.

Variable rows : list (list string).

Lemma parse_escaped (s : string) : forall (field rest : string) (r : list string),
  Csv.parse Csv.Quoted field r rows
    (replace_all_char dquote (String dquote (str dquote)) s ++ String dquote rest)
  = Csv.parse Csv.QuoteSeen (field ++ s) r rows rest.
Proof.
  induction s as [|c s IH]; intros field rest r; simpl.
  - now rewrite append_empty_r.
  - destruct (Ascii.eqb c dquote) eqn:E; simpl.
    + apply Ascii.eqb_eq in E; subst c.
      rewrite IH. unfold str. now rewrite append_assoc.
    + rewrite E, IH. unfold str. now rewrite append_assoc.
Qed.

Lemma parse_quote_cell (m : Csv.Mode) (c : Cell) (rest : string) (r : list string) :
  m = Csv.RecordStart \/ m = Csv.FieldStart ->
  Csv.parse m "" r rows (quote_cell c ++ rest)
  = Csv.parse Csv.QuoteSeen (cell_text c) r rows rest.
Proof.
  intros Hm. unfold quote_cell. fold (cell_text c).
  rewrite !append_assoc.
  assert (Csv.parse m "" r rows
            (str dquote ++ replace_all_char dquote (String dquote (str dquote)) (cell_text c)
               ++ str dquote ++ rest)
          = Csv.parse Csv.Quoted "" r rows
              (replace_all_char dquote (String dquote (str dquote)) (cell_text c)
                 ++ String dquote rest)) as ->.
  { destruct Hm; subst m; reflexivity. }
  now rewrite parse_escaped.
Qed.

End CsvRoundTrip.

Lemma join_cons2 (sep x y : string) (l : list string) :
  join sep (x :: y :: l) = x ++ sep ++ join sep (y :: l).
Proof. reflexivity. Qed.

Lemma parse_after_comma (f rest : string) (r : list string) (rows : list (list string)) :
  Csv.parse Csv.QuoteSeen f r rows (str comma ++ rest)
  = Csv.parse Csv.FieldStart "" (Csv.snoc r f) rows rest.
Proof. reflexivity. Qed.

Lemma parse_after_newline (f rest : string) (r : list string) (rows : list (list string)) :
  Csv.parse Csv.QuoteSeen f r rows (str newline ++ rest)
  = Csv.parse Csv.RecordStart "" [] (Csv.snoc rows (Csv.snoc r f)) rest.
Proof. reflexivity. Qed.

(** A serialised row that ends the text. *)
Lemma parse_row_last (cs : list Cell) : forall (c : Cell) (m : Csv.Mode) (r : list string)
    (rows : list (list string)),
  m = Csv.RecordStart \/ m = Csv.FieldStart ->
  Csv.parse m "" r rows (join (str comma) (map quote_cell (c :: cs)))
  = Some (Csv.snoc rows (r ++ map cell_text (c :: cs))%list).
Proof.
  induction cs as [|c' cs IH]; intros c m r rows Hm.
  - simpl map. unfold join. simpl String.concat.
    rewrite <- (append_empty_r (quote_cell c)), parse_quote_cell by exact Hm.
    reflexivity.
  - change (map quote_cell (c :: c' :: cs))
      with (quote_cell c :: quote_cell c' :: map quote_cell cs).
    rewrite join_cons2, parse_quote_cell by exact Hm.
    change (quote_cell c' :: map quote_cell cs) with (map quote_cell (c' :: cs)).
    rewrite parse_after_comma, IH by (now right).
    unfold Csv.snoc. simpl. now rewrite <- app_assoc.
Qed.

(** A serialised row followed by a line feed and more text. *)
Lemma parse_row_next (cs : list Cell) : forall (c : Cell) (m : Csv.Mode) (r : list string)
    (rows : list (list string)) (rest : string),
  m = Csv.RecordStart \/ m = Csv.FieldStart ->
  Csv.parse m "" r rows (join (str comma) (map quote_cell (c :: cs)) ++ str newline ++ rest)
  = Csv.parse Csv.RecordStart "" [] (Csv.snoc rows (r ++ map cell_text (c :: cs))%list) rest.
Proof.
  induction cs as [|c' cs IH]; intros c m r rows rest Hm.
  - simpl map. unfold join. simpl String.concat.
    rewrite parse_quote_cell by exact Hm. now rewrite parse_after_newline.
  - change (map quote_cell (c :: c' :: cs))
      with (quote_cell c :: quote_cell c' :: map quote_cell cs).
    rewrite join_cons2, !append_assoc, parse_quote_cell by exact Hm.
    change (quote_cell c' :: map quote_cell cs) with (map quote_cell (c' :: cs)).
    rewrite parse_after_comma, IH by (now right).
    unfold Csv.snoc. simpl. now rewrite <- app_assoc.
Qed.

Lemma parse_blank_line (rest : string) (rows : list (list string)) :
  Csv.parse Csv.RecordStart "" [] rows (str newline ++ rest)
  = Csv.parse Csv.RecordStart "" [] (Csv.snoc rows []) rest.
Proof. reflexivity. Qed.

Lemma convert_cons2 (r r' : list Cell) (data : list (list Cell)) :
  convertXlsxToCsv (r :: r' :: data)
  = join (str comma) (map quote_cell r) ++ str newline ++ convertXlsxToCsv (r' :: data).
Proof. reflexivity. Qed.

(** The rows of a grid, after [rows] were read. *)
Lemma parse_grid (data : list (list Cell)) : forall rows : list (list string),
  Csv.parse Csv.RecordStart "" [] rows (convertXlsxToCsv data)
  = Some (rows ++ map (map cell_text) (without_empty_last data))%list.
Proof.
  induction data as [|r data IH]; intros rows.
  - simpl. now rewrite app_nil_r.
  - destruct data as [|r' data].
    + destruct r as [|c cs].
      * simpl. now rewrite app_nil_r.
      * change (convertXlsxToCsv [c :: cs]) with (join (str comma) (map quote_cell (c :: cs))).
        rewrite parse_row_last by (now left). reflexivity.
    + rewrite convert_cons2.
      change (without_empty_last (r :: r' :: data))
        with (r :: without_empty_last (r' :: data)).
      destruct r as [|c cs].
      * change (join (str comma) (map quote_cell []) ++ str newline
                  ++ convertXlsxToCsv (r' :: data))
          with (str newline ++ convertXlsxToCsv (r' :: data)).
        rewrite parse_blank_line, IH. unfold Csv.snoc. simpl. now rewrite <- app_assoc.
      * rewrite parse_row_next by (now left). rewrite IH.
        unfold Csv.snoc. simpl. now rewrite <- app_assoc.
Qed.

Lemma without_empty_last_cells (data : list (list Cell)) :
  List.concat (without_empty_last data) = List.concat data.
Proof.
  induction data as [|r data IH]; [reflexivity|].
  destruct data as [|r' data].
  - destruct r; reflexivity.
  - change (without_empty_last (r :: r' :: data))
      with (r :: without_empty_last (r' :: data)).
    cbn [List.concat]. rewrite IH. reflexivity.
Qed.

Lemma without_empty_last_full (data : list (list Cell)) :
  Forall (fun r => r <> []) data -> without_empty_last data = data.
Proof.
  induction data as [|r data IH]; intros Hne; [reflexivity|].
  inversion Hne as [|? ? Hr Hdata]; subst.
  destruct data as [|r' data].
  - destruct r; [congruence | reflexivity].
  - change (without_empty_last (r :: r' :: data))
      with (r :: without_empty_last (r' :: data)).
    now rewrite IH.
Qed.

(** C3. Round trip of the spreadsheet serialisation: for every grid,
    whatever the cells contain (double quotes, commas and line breaks
    included), the text produced by [convertXlsxToCsv] is accepted by the
    CSV decoder, and the cells read back are the cells of the grid, in
    order, a [null] or [undefined] cell read as the empty string; the rows
    read back are the rows of the grid, but for a last row without cells;
    in particular a grid whose rows each hold a cell comes back as it was. *)
Theorem csv_round_trip (data : list (list Cell)) :
  exists rows : list (list string),
    Csv.decode (convertXlsxToCsv data) = Some rows
    /\ List.concat rows = map cell_text (List.concat data)
    /\ rows = map (map cell_text) (without_empty_last data)
    /\ (Forall (fun r => r <> []) data -> rows = map (map cell_text) data).
Proof.
  exists (map (map cell_text) (without_empty_last data)).
  split; [unfold Csv.decode; now rewrite parse_grid|].
  split; [|split; [reflexivity|]].
  - now rewrite <- concat_map, without_empty_last_cells.
  - intros Hne. now rewrite without_empty_last_full.
Qed.

Lemma csv_round_trip_witness :
  Forall (fun r : list Cell => r <> [])
    [[Some ("say " ++ str dquote ++ "hi" ++ str dquote); None]; [Some "a,b"]]
  /\ Csv.decode (convertXlsxToCsv
        [[Some ("say " ++ str dquote ++ "hi" ++ str dquote); None]; [Some "a,b"]])
     = Some [["say " ++ str dquote ++ "hi" ++ str dquote; ""]; ["a,b"]].
Proof.
  assert (H : Forall (fun r : list Cell => r <> [])
    [[Some ("say " ++ str dquote ++ "hi" ++ str dquote); None]; [Some "a,b"]])
    by (repeat constructor; discriminate).
  split; [exact H|].
  destruct (csv_round_trip
              [[Some ("say " ++ str dquote ++ "hi" ++ str dquote); None]; [Some "a,b"]])
    as (rows & Hdec & _ & _ & Hrows).
  rewrite Hdec, (Hrows H). reflexivity.
Defined.

(** ** The slide text *)

Lemma slide_block_render (s : Slide) (i : nat) :
  slide_block s i = render [PHeader (i + 1) (title s); PBody (content s)].
Proof.
  unfold slide_block, render. simpl.
  repeat (progress (rewrite ?append_assoc, ?append_empty_r; simpl)).
  reflexivity.
Qed.

Lemma render_app (l1 l2 : list Piece) : render (l1 ++ l2) = render l1 ++ render l2.
Proof.
  induction l1 as [|p l1 IH]; simpl; [reflexivity|].
  fold (render (l1 ++ l2)) (render l1). now rewrite IH, append_assoc.
Qed.

Lemma pptx_layout_from (slides : list Slide) : forall i : nat,
  join slide_separator (mapi_from slide_block i slides) = render (slide_layout (i + 1) slides).
Proof.
  induction slides as [|s slides IH]; intros i; [reflexivity|].
  destruct slides as [|s' slides].
  - simpl mapi_from. unfold join. simpl String.concat. apply slide_block_render.
  - change (mapi_from slide_block i (s :: s' :: slides))
      with (slide_block s i :: mapi_from slide_block (S i) (s' :: slides)).
    change (mapi_from slide_block (S i) (s' :: slides))
      with (slide_block s' (S i) :: mapi_from slide_block (S (S i)) slides) in *.
    rewrite join_cons2.
    change (slide_block s' (S i) :: mapi_from slide_block (S (S i)) slides)
      with (mapi_from slide_block (S i) (s' :: slides)).
    rewrite IH, slide_block_render.
    change (slide_layout (i + 1) (s :: s' :: slides))
      with ([PHeader (i + 1) (title s); PBody (content s)]
              ++ PSeparator :: slide_layout (S (i + 1)) (s' :: slides))%list.
    rewrite render_app. replace (S i + 1) with (S (i + 1)) by lia. reflexivity.
Qed.

Lemma slide_layout_cons2 (pos : nat) (s s' : Slide) (slides : list Slide) :
  slide_layout pos (s :: s' :: slides)
  = PHeader pos (title s) :: PBody (content s) :: PSeparator
      :: slide_layout (S pos) (s' :: slides).
Proof. reflexivity. Qed.

Lemma layout_separators (slides : list Slide) : forall pos : nat,
  List.length (filter is_separator (slide_layout pos slides)) = List.length slides - 1.
Proof.
  induction slides as [|s slides IH]; intros pos; [reflexivity|].
  destruct slides as [|s' slides]; [reflexivity|].
  rewrite slide_layout_cons2.
  change (filter is_separator
            (PHeader pos (title s) :: PBody (content s) :: PSeparator
               :: slide_layout (S pos) (s' :: slides)))
    with (PSeparator :: filter is_separator (slide_layout (S pos) (s' :: slides))).
  cbn [List.length]. rewrite IH. cbn [List.length]. lia.
Qed.

Lemma layout_headers (slides : list Slide) : forall pos : nat,
  headers_of (slide_layout pos slides)
  = combine (seq pos (List.length slides)) (map title slides).
Proof.
  induction slides as [|s slides IH]; intros pos; [reflexivity|].
  destruct slides as [|s' slides]; [reflexivity|].
  rewrite slide_layout_cons2.
  change (headers_of
            (PHeader pos (title s) :: PBody (content s) :: PSeparator
               :: slide_layout (S pos) (s' :: slides)))
    with ((pos, title s) :: headers_of (slide_layout (S pos) (s' :: slides))).
  rewrite IH. reflexivity.
Qed.

Lemma layout_bodies (slides : list Slide) : forall pos : nat,
  bodies_of (slide_layout pos slides) = map content slides.
Proof.
  induction slides as [|s slides IH]; intros pos; [reflexivity|].
  destruct slides as [|s' slides]; [reflexivity|].
  rewrite slide_layout_cons2.
  change (bodies_of
            (PHeader pos (title s) :: PBody (content s) :: PSeparator
               :: slide_layout (S pos) (s' :: slides)))
    with (content s :: bodies_of (slide_layout (S pos) (s' :: slides))).
  rewrite IH. reflexivity.
Qed.

Lemma has_char_append (c : ascii) (a b : string) :
  has_char c (a ++ b) = has_char c a || has_char c b.
Proof.
  induction a as [|x a IH]; [reflexivity|]. simpl. rewrite IH. apply orb_assoc.
Qed.

(** A text without the first character of [pat] holds no start of [pat]. *)
Lemma occurrences_skip (c : ascii) (pat a b : string) :
  has_char c a = false ->
  occurrences (String c pat) (a ++ b) = occurrences (String c pat) b.
Proof.
  induction a as [|x a IH]; intros H; [reflexivity|].
  simpl in H. apply orb_false_iff in H. destruct H as [Hx Ha].
  cbn [append occurrences String.prefix].
  destruct (ascii_dec c x) as [E|_].
  - subst x. now rewrite Ascii.eqb_refl in Hx.
  - simpl. now apply IH.
Qed.

Lemma digits_dash_free (d : Decimal.uint) : has_char "-"%char (NilEmpty.string_of_uint d) = false.
Proof. induction d; simpl; auto. Qed.

Lemma dec_dash_free (n : nat) : has_char "-"%char (dec n) = false.
Proof.
  unfold dec, NilZero.string_of_uint.
  destruct (Nat.to_uint n) eqn:E; try reflexivity;
    rewrite <- E; apply digits_dash_free.
Qed.

Lemma separator_then (b : string) :
  occurrences slide_separator (slide_separator ++ b) = S (occurrences slide_separator b).
Proof. destruct b; reflexivity. Qed.

Lemma block_dash_free (s : Slide) (pos : nat) :
  dash_free s ->
  has_char "-"%char (render_piece (PHeader pos (title s)) ++ render_piece (PBody (content s)))
  = false.
Proof.
  intros [Ht Hc]. unfold render_piece.
  rewrite !has_char_append, dec_dash_free, Ht, Hc. reflexivity.
Qed.

Lemma layout_occurrences (slides : list Slide) : forall pos : nat,
  Forall dash_free slides ->
  occurrences slide_separator (render (slide_layout pos slides)) = List.length slides - 1.
Proof.
  induction slides as [|s slides IH]; intros pos Hfree; [reflexivity|].
  inversion Hfree as [|? ? Hs Hrest]; subst.
  destruct slides as [|s' slides].
  - change (render (slide_layout pos [s]))
      with (render_piece (PHeader pos (title s))
              ++ render_piece (PBody (content s)) ++ "").
    rewrite <- append_assoc.
    unfold slide_separator at 1. cbn [append].
    rewrite occurrences_skip by (now apply block_dash_free).
    reflexivity.
  - rewrite slide_layout_cons2.
    change (render (PHeader pos (title s) :: PBody (content s) :: PSeparator
                      :: slide_layout (S pos) (s' :: slides)))
      with (render_piece (PHeader pos (title s))
              ++ render_piece (PBody (content s))
              ++ slide_separator ++ render (slide_layout (S pos) (s' :: slides))).
    rewrite <- append_assoc.
    unfold slide_separator at 1. cbn [append].
    rewrite occurrences_skip by (now apply block_dash_free).
    change (String "-" _) with slide_separator at 1.
    rewrite separator_then, IH by exact Hrest.
    cbn [List.length]. lia.
Qed.

Lemma prefix_empty (s : string) : String.prefix "" s = true.
Proof. destruct s; reflexivity. Qed.

(** A run of dashes closed by a line feed cannot reach beyond the first line
    feed of the text: whether it starts the text is decided before it. *)
Lemma prefix_dashes_line (k : nat) : forall a b : string,
  String.prefix (dashes k ++ str newline) (a ++ str newline ++ b)
  = String.prefix (dashes k ++ str newline) (a ++ str newline).
Proof.
  induction k as [|k IH]; intros a b.
  - destruct a as [|c a].
    + cbn. apply prefix_empty.
    + cbn [dashes append str String.prefix].
      destruct (ascii_dec newline c); [now rewrite !prefix_empty | reflexivity].
  - destruct a as [|c a]; [reflexivity|].
    cbn [dashes append String.prefix].
    destruct (ascii_dec "-" c); [apply IH | reflexivity].
Qed.

Lemma occurrences_line (a b : string) :
  occurrences slide_separator (a ++ str newline ++ b)
  = occurrences slide_separator (a ++ str newline) + occurrences slide_separator b.
Proof.
  induction a as [|c a IH]; [reflexivity|].
  change (occurrences slide_separator (String c a ++ str newline ++ b))
    with ((if String.prefix (dashes 40 ++ str newline) (String c a ++ str newline ++ b)
           then 1 else 0)
          + occurrences slide_separator (a ++ str newline ++ b)).
  change (occurrences slide_separator (String c a ++ str newline))
    with ((if String.prefix (dashes 40 ++ str newline) (String c a ++ str newline)
           then 1 else 0)
          + occurrences slide_separator (a ++ str newline)).
  rewrite prefix_dashes_line, IH. lia.
Qed.

Lemma separator_skip (a b : string) :
  has_char "-"%char a = false ->
  occurrences slide_separator (a ++ b) = occurrences slide_separator b.
Proof. exact (occurrences_skip "-"%char (dashes 39 ++ str newline) a b). Qed.

(** The occurrences inside the block of a slide are those of its title and
    of its content. *)
Lemma block_occurrences (s : Slide) (pos : nat) (rest : string) :
  occurrences slide_separator
    (render_piece (PHeader pos (title s)) ++ render_piece (PBody (content s)) ++ rest)
  = inner_occurrences s + occurrences slide_separator rest.
Proof.
  unfold render_piece, inner_occurrences.
  replace (("Slide " ++ dec pos ++ ": " ++ title s ++ str newline)
             ++ (content s ++ str newline ++ str newline) ++ rest)
    with (("Slide " ++ dec pos ++ ": ")
            ++ title s ++ str newline ++ content s ++ str newline ++ str newline ++ rest)
    by (now rewrite !append_assoc).
  rewrite separator_skip
    by (rewrite !has_char_append, dec_dash_free; reflexivity).
  rewrite occurrences_line, occurrences_line.
  rewrite (separator_skip (str newline) rest) by reflexivity.
  lia.
Qed.

Lemma list_sum_cons (a : nat) (l : list nat) : list_sum (a :: l) = a + list_sum l.
Proof. reflexivity. Qed.

Lemma layout_occurrences_exact (slides : list Slide) : forall pos : nat,
  occurrences slide_separator (render (slide_layout pos slides))
  = (List.length slides - 1) + list_sum (map inner_occurrences slides).
Proof.
  induction slides as [|s slides IH]; intros pos; [reflexivity|].
  destruct slides as [|s' slides].
  - change (render (slide_layout pos [s]))
      with (render_piece (PHeader pos (title s))
              ++ render_piece (PBody (content s)) ++ "").
    rewrite block_occurrences. cbn [map List.length]. rewrite list_sum_cons.
    reflexivity.
  - rewrite slide_layout_cons2.
    change (render (PHeader pos (title s) :: PBody (content s) :: PSeparator
                      :: slide_layout (S pos) (s' :: slides)))
      with (render_piece (PHeader pos (title s))
              ++ render_piece (PBody (content s))
              ++ slide_separator ++ render (slide_layout (S pos) (s' :: slides))).
    rewrite block_occurrences, separator_then, IH.
    change (map inner_occurrences (s :: s' :: slides))
      with (inner_occurrences s :: map inner_occurrences (s' :: slides)).
    rewrite list_sum_cons. cbn [List.length]. lia.
Qed.

Lemma dash_free_inner (s : Slide) : dash_free s -> inner_occurrences s = 0.
Proof.
  intros [Ht Hc]. unfold inner_occurrences.
  rewrite (separator_skip (title s) (str newline)) by exact Ht.
  rewrite (separator_skip (content s) (str newline)) by exact Hc.
  reflexivity.
Qed.

Lemma list_sum_zero (l : list nat) : Forall (fun n => n = 0) l -> list_sum l = 0.
Proof.
  induction 1 as [|n l Hn _ IH]; [reflexivity|].
  rewrite list_sum_cons, Hn, IH. reflexivity.
Qed.

(** C4 (as stated, refuted). One slide whose content is the line of dashes:
    the text of this single slide holds the separator line once, where
    [n - 1] is 0. *)
Lemma pptx_separator_inside_slide :
  List.length [dash_line_slide] - 1 = 0
  /\ occurrences slide_separator (convertPptxToText [dash_line_slide]) = 1
  /\ occurrences slide_separator (convertPptxToText [dash_line_slide])
     <> List.length [dash_line_slide] - 1.
Proof. split; [reflexivity | split; [reflexivity | discriminate]]. Qed.

(** C4 (amended). The slide text: for every sequence of [n] slides,
    [convertPptxToText] yields the rendering of this layout: for each slide
    in order the header line [Slide N: <title>], [N] its position counted
    from 1, then its body, and the separator line between two consecutive
    slides and nowhere else, so that it is laid out [n - 1] times (none for
    an empty sequence).  In the text the separator line occurs at exactly
    [n - 1] places plus those at which it occurs inside the slides' own
    titles and contents (each taken with the line feed that follows it):
    at exactly [n - 1] places when no title and no content holds the
    separator line, which is the case when none holds a dash. *)
Theorem pptx_text_layout (slides : list Slide) :
  let layout := slide_layout 1 slides in
  convertPptxToText slides = render layout
  /\ headers_of layout = combine (seq 1 (List.length slides)) (map title slides)
  /\ bodies_of layout = map content slides
  /\ List.length (filter is_separator layout) = List.length slides - 1
  /\ occurrences slide_separator (convertPptxToText slides)
     = (List.length slides - 1) + list_sum (map inner_occurrences slides)
  /\ (Forall (fun s => inner_occurrences s = 0) slides ->
       occurrences slide_separator (convertPptxToText slides) = List.length slides - 1)
  /\ (Forall dash_free slides ->
       occurrences slide_separator (convertPptxToText slides) = List.length slides - 1).
Proof.
  cbv zeta.
  assert (E : convertPptxToText slides = render (slide_layout 1 slides)).
  { unfold convertPptxToText, mapi. now rewrite pptx_layout_from. }
  assert (N : occurrences slide_separator (convertPptxToText slides)
              = (List.length slides - 1) + list_sum (map inner_occurrences slides)).
  { rewrite E. apply layout_occurrences_exact. }
  assert (Z : Forall (fun s => inner_occurrences s = 0) slides ->
              occurrences slide_separator (convertPptxToText slides)
              = List.length slides - 1).
  { intros Hin. rewrite N, list_sum_zero; [lia|].
    apply Forall_map. exact Hin. }
  repeat match goal with |- _ /\ _ => split end.
  - exact E.
  - apply layout_headers.
  - apply layout_bodies.
  - apply layout_separators.
  - exact N.
  - exact Z.
  - intros Hfree. apply Z.
    eapply Forall_impl; [|exact Hfree]. intros s. apply dash_free_inner.
Qed.

Lemma pptx_text_layout_witness :
  let slides := [mkSlide "Intro" "hello"; mkSlide "Pros - cons" "a - b"; mkSlide "End" ""] in
  Forall (fun s => inner_occurrences s = 0) slides
  /\ occurrences slide_separator (convertPptxToText slides) = 2
  /\ Forall dash_free [mkSlide "Intro" "hello"; mkSlide "End" ""]
  /\ occurrences slide_separator
       (convertPptxToText [mkSlide "Intro" "hello"; mkSlide "End" ""]) = 1.
Proof.
  cbv zeta.
  assert (H : Forall (fun s => inner_occurrences s = 0)
                [mkSlide "Intro" "hello"; mkSlide "Pros - cons" "a - b"; mkSlide "End" ""])
    by (repeat constructor).
  assert (F : Forall dash_free [mkSlide "Intro" "hello"; mkSlide "End" ""])
    by (repeat constructor).
  split; [exact H|]. split; [|split; [exact F|]].
  - destruct (pptx_text_layout
                [mkSlide "Intro" "hello"; mkSlide "Pros - cons" "a - b"; mkSlide "End" ""])
      as (_ & _ & _ & _ & _ & Hocc & _).
    exact (Hocc H).
  - destruct (pptx_text_layout [mkSlide "Intro" "hello"; mkSlide "End" ""])
      as (_ & _ & _ & _ & _ & _ & Hocc).
    exact (Hocc F).
Defined.

(** ** The archive *)

Lemma write_all_app (l1 l2 : list (string * string)) (files : JSZip.Files) :
  write_all (l1 ++ l2) files = write_all l2 (write_all l1 files).
Proof. unfold write_all. apply fold_left_app. Qed.

Lemma zip_root_snoc (folders : list string) (name : string) :
  zip_root (folders ++ [name]) = JSZip.folder (zip_root folders) name.
Proof. unfold zip_root. now rewrite fold_left_app. Qed.

(** The walk writes the expected members of the node, in order. *)
Lemma addNodeToZip_writes (node : TreeNode) : forall (folders : list string) (files : JSZip.Files),
  files_are_leaves node = true ->
  addNodeToZip (zip_root folders) node files
  = write_all (map expected_member (artifacts_of folders node)) files.
Proof.
  induction node using TreeNode_forest_ind with
    (Q := fun cs => forall (folders : list string) (files : JSZip.Files),
            forallb files_are_leaves cs = true ->
            fold_left (fun fs child => addNodeToZip (zip_root folders) child fs) cs files
            = write_all (map expected_member (flat_map (artifacts_of folders) cs)) files).
  - intros folders files _. reflexivity.
  - intros folders files Hwf. simpl in Hwf. apply andb_true_iff in Hwf.
    destruct Hwf as [Hn Hl].
    simpl fold_left. simpl flat_map.
    rewrite map_app, write_all_app, IHnode by exact Hn. now apply IHnode0.
  - intros folders files _. destruct ty; [reflexivity|].
    destruct fd as [f|]; [|reflexivity].
    simpl. unfold expected_member, write_all. simpl.
    destruct (archive_entry f) as [fileName body]. reflexivity.
  - intros folders files Hwf. destruct ty.
    + simpl in Hwf. simpl. rewrite <- zip_root_snoc. now apply IHnode.
    + destruct cs as [|c cs]; [|discriminate].
      destruct fd as [f|]; [|reflexivity].
      simpl. unfold expected_member, write_all. simpl.
      destruct (archive_entry f) as [fileName body]. reflexivity.
Qed.

Lemma forest_writes (tree : list TreeNode) (files : JSZip.Files) :
  forallb files_are_leaves tree = true ->
  fold_left (fun fs node => addNodeToZip "" node fs) tree files
  = write_all (map expected_member (forest_artifacts tree)) files.
Proof.
  revert files. unfold forest_artifacts.
  induction tree as [|n tree IH]; intros files Hwf; [reflexivity|].
  simpl in Hwf. apply andb_true_iff in Hwf. destruct Hwf as [Hn Htree].
  simpl fold_left. simpl flat_map.
  rewrite map_app, write_all_app, IH by exact Htree.
  now rewrite <- (addNodeToZip_writes n []).
Qed.

Lemma set_member_fresh (name body : string) (files : JSZip.Files) :
  ~ In name (map fst files) ->
  JSZip.set_member name body files = (files ++ [(name, body)])%list.
Proof.
  induction files as [|[n c] files IH]; intros Hfresh; [reflexivity|].
  simpl in *. destruct (String.eqb_spec n name) as [->|Hne].
  - exfalso. apply Hfresh. now left.
  - rewrite IH; [reflexivity|]. intros Hin. apply Hfresh. now right.
Qed.

Lemma write_all_distinct (l : list (string * string)) : forall files : JSZip.Files,
  NoDup (map fst files ++ map fst l) ->
  write_all l files = (files ++ l)%list.
Proof.
  induction l as [|[n c] l IH]; intros files Hnd.
  - simpl. now rewrite app_nil_r.
  - change (write_all ((n, c) :: l) files)
      with (write_all l (JSZip.set_member n c files)).
    simpl in Hnd.
    assert (Hfresh : ~ In n (map fst files)).
    { apply NoDup_remove_2 in Hnd. intros Hin. apply Hnd, in_or_app. now left. }
    rewrite set_member_fresh by exact Hfresh.
    rewrite IH.
    + now rewrite <- app_assoc.
    + rewrite map_app. simpl. rewrite <- app_assoc. exact Hnd.
Qed.

Lemma slice_last_append (a b : string) : b <> "" -> slice_last (a ++ b) = slice_last b.
Proof.
  intros Hb. induction a as [|c a IH]; [reflexivity|].
  simpl. destruct (a ++ b) eqn:E; [|exact IH].
  destruct a; simpl in E; [congruence | discriminate].
Qed.

Lemma folder_well_named (root name : string) :
  well_named name -> JSZip.folder root name = root ++ name ++ "/".
Proof.
  intros [Hne Hslash]. unfold JSZip.folder, JSZip.forceTrailingSlash.
  destruct (String.eqb_spec name "") as [->|_]; [congruence|].
  rewrite slice_last_append by exact Hne.
  destruct (String.eqb_spec (slice_last name) "/") as [E|_]; [congruence|].
  now rewrite append_assoc.
Qed.

Lemma zip_root_nested (folders : list string) : forall root name : string,
  Forall well_named folders ->
  fold_left JSZip.folder folders root ++ name = root ++ nested_path folders name.
Proof.
  unfold nested_path.
  induction folders as [|f folders IH]; intros root name Hwf; [reflexivity|].
  inversion Hwf as [|? ? Hf Hrest]; subst.
  simpl fold_left. rewrite IH by exact Hrest.
  rewrite folder_well_named by exact Hf.
  rewrite !append_assoc.
  destruct folders as [|f' folders]; reflexivity.
Qed.

(** Entering folders one after the other appends their segments. *)
Lemma folder_segment_spec (root name : string) :
  JSZip.folder root name = root ++ folder_segment name.
Proof.
  unfold JSZip.folder, JSZip.forceTrailingSlash, folder_segment.
  destruct (String.eqb_spec name "") as [->|Hne].
  - clear. induction root as [|c root IH]; [reflexivity|]. simpl. now rewrite <- IH.
  - rewrite slice_last_append by exact Hne.
    destruct (String.eqb_spec (slice_last name) "/") as [_|_];
      [reflexivity | now rewrite append_assoc].
Qed.

Lemma concat_empty_cons (x : string) (l : list string) :
  String.concat "" (x :: l) = x ++ String.concat "" l.
Proof.
  destruct l as [|y l]; simpl.
  - clear. induction x as [|c x IH]; [reflexivity|]. simpl. now rewrite <- IH.
  - reflexivity.
Qed.

Lemma zip_root_segments (folders : list string) : forall root name : string,
  fold_left JSZip.folder folders root ++ name
  = root ++ String.concat "" (map folder_segment folders) ++ name.
Proof.
  induction folders as [|f folders IH]; intros root name; [reflexivity|].
  cbn [fold_left map]. rewrite IH, folder_segment_spec, concat_empty_cons.
  now rewrite !append_assoc.
Qed.

(** C2 (as stated, refuted). Two file nodes of the same name side by side
    both carry an artifact, and the archive holds a single entry: the second
    write replaced the first. *)
Lemma zip_same_name_one_entry :
  forallb files_are_leaves twin_forest = true
  /\ List.length (forest_artifacts twin_forest) = 2
  /\ members (downloadResultsAsZip twin_forest) = [("a.html", "second")]
  /\ List.length (members (downloadResultsAsZip twin_forest)) <> 2.
Proof. split; [reflexivity | split; [reflexivity | split; [reflexivity | discriminate]]]. Qed.

(** The children of a file node are not visited: a file node with
    [fileData] placed under a file node gets no entry. *)
Lemma zip_file_children_skipped :
  List.length (forest_artifacts file_under_file) = 2
  /\ members (downloadResultsAsZip file_under_file) = [("a.html", "outer")].
Proof. split; reflexivity. Qed.

(** C2 (amended). For every forest in which only folder nodes have children
    and whose artifacts resolve to pairwise distinct member paths, the
    archive saved by [downloadResultsAsZip] holds exactly one file entry per
    file node with [fileData], in the order of the walk, with the content of
    its kind, and no other file entry.  The path of the entry is, for each
    enclosing folder in turn from the outermost one, the name of the folder
    followed by a slash (nothing for a folder with an empty name, and no second
    slash after a name that already ends in one), then the rewritten file
    name; this is the folder names and the file name joined by slashes
    whenever the folder names are non-empty and do not end in a slash.  A
    file node without [fileData] writes nothing. *)
Theorem zip_one_entry_per_artifact (tree : list TreeNode) :
  forallb files_are_leaves tree = true ->
  NoDup (map fst (map expected_member (forest_artifacts tree))) ->
  members (downloadResultsAsZip tree) = map expected_member (forest_artifacts tree)
  /\ List.length (members (downloadResultsAsZip tree)) = List.length (forest_artifacts tree)
  /\ (forall folders f,
        expected_member (folders, f)
        = (segment_path folders (fst (archive_entry f)), snd (archive_entry f)))
  /\ members (downloadResultsAsZip tree)
     = map (fun a => (segment_path (fst a) (fst (archive_entry (snd a))),
                      snd (archive_entry (snd a))))
           (forest_artifacts tree)
  /\ (forall folders name, Forall well_named folders ->
        segment_path folders name = nested_path folders name)
  /\ (forall id name cs root files,
        addNodeToZip root (mkNode id name File cs None) files = files).
Proof.
  intros Hwf Hnd.
  assert (E : members (downloadResultsAsZip tree)
              = map expected_member (forest_artifacts tree)).
  { unfold downloadResultsAsZip. cbn [members].
    rewrite forest_writes by exact Hwf.
    rewrite write_all_distinct; [reflexivity | exact Hnd]. }
  assert (P : forall folders f,
             expected_member (folders, f)
             = (segment_path folders (fst (archive_entry f)), snd (archive_entry f))).
  { intros folders f. unfold expected_member, zip_root, segment_path. cbn [fst snd].
    now rewrite zip_root_segments. }
  split; [exact E|]. split; [now rewrite E, length_map|]. split; [exact P|].
  split; [|split].
  - rewrite E. apply map_ext. intros [folders f]. apply P.
  - intros folders name Hnames. unfold segment_path.
    transitivity (fold_left JSZip.folder folders "" ++ name).
    + symmetry. exact (zip_root_segments folders "" name).
    + exact (zip_root_nested folders "" name Hnames).
  - reflexivity.
Qed.

Lemma zip_one_entry_per_artifact_witness :
  let tree :=
    [mkNode "1" "out" Folder
       (Some [mkNode "2" "report" File None
                (Some (mkFile "f1" "report.docx" (HtmlContent "<p>x</p>")));
              mkNode "3" "empty" File None None;
              mkNode "4" "" Folder
                (Some [mkNode "5" "deck" File None
                         (Some (mkFile "f2" "deck.pptx" (SlidesContent [mkSlide "T" "c"])))])
                None;
              mkNode "6" "raw/" Folder
                (Some [mkNode "7" "sheet" File None
                         (Some (mkFile "f3" "sheet.xlsx" (GridContent [[Some "1"]])))])
                None])
       None] in
  forallb files_are_leaves tree = true
  /\ NoDup (map fst (map expected_member (forest_artifacts tree)))
  /\ map fst (members (downloadResultsAsZip tree))
     = ["out/report.html"; "out/deck.txt"; "out/raw/sheet.csv"]
  /\ List.length (members (downloadResultsAsZip tree)) = 3
  /\ Forall well_named ["out"; "sub"]
  /\ segment_path ["out"; "sub"] "a.html" = "out/sub/a.html".
Proof.
  cbv zeta.
  set (tree := [mkNode "1" "out" Folder _ None]).
  assert (Hwf : forallb files_are_leaves tree = true) by reflexivity.
  assert (Hnd : NoDup (map fst (map expected_member (forest_artifacts tree)))).
  { vm_compute. repeat constructor; simpl; intuition discriminate. }
  assert (Hnames : Forall well_named ["out"; "sub"]).
  { repeat constructor; discriminate. }
  destruct (zip_one_entry_per_artifact tree Hwf Hnd) as (_ & L & _ & E & N & _).
  split; [exact Hwf|]. split; [exact Hnd|].
  split; [rewrite E; reflexivity|]. split; [rewrite L; reflexivity|].
  split; [exact Hnames|]. rewrite (N _ _ Hnames). reflexivity.
Defined.

(** ** The docx entry *)

(** The content of a docx artifact is stored as it is. *)
Lemma docx_entry_content (id name html : string) :
  snd (archive_entry (mkFile id name (HtmlContent html))) = html.
Proof. reflexivity. Qed.

Lemma replace_first_no_dot (stem : string) :
  (forall a b, stem <> a ++ String "."%char b) ->
  replace_first ".docx" ".html" (stem ++ ".docx") = stem ++ ".html".
Proof.
  induction stem as [|c stem IH]; intros Hdot; [reflexivity|].
  assert (Hc : c <> "."%char).
  { intros ->. apply (Hdot "" stem). reflexivity. }
  cbn [append replace_first String.prefix String.length].
  destruct (ascii_dec "."%char c) as [E|_]; [congruence|].
  f_equal. apply IH. intros a b ->. apply (Hdot (String c a) b). reflexivity.
Qed.

(** A name with a single dot, the one of its [.docx] extension, gets the
    [.html] extension. *)
Lemma docx_entry_name_simple (id stem html : string) :
  (forall a b, stem <> a ++ String "."%char b) ->
  fst (archive_entry (mkFile id (stem ++ ".docx") (HtmlContent html))) = stem ++ ".html".
Proof. intros Hdot. cbn. now apply replace_first_no_dot. Qed.

(** C5 (the code at the failing input). The docx artifact named
    [a.docx.docx]: the name ends in [.docx], the first [.docx] is the one
    replaced, and the entry name [a.html.docx] does not end in [.html]. *)
Theorem docx_entry_first_occurrence :
  let f := mkFile "f1" "a.docx.docx" (HtmlContent "<p>x</p>") in
  ends_with ".docx" (file_name f) = true
  /\ archive_entry f = ("a.html.docx", "<p>x</p>")
  /\ ends_with ".html" (fst (archive_entry f)) = false.
Proof. repeat split. Qed.

(** ** The preview *)

Lemma includes_In (l : list string) (x : string) : FileViewer.includes l x = true <-> In x l.
Proof.
  unfold FileViewer.includes. rewrite existsb_exists. split.
  - intros (y & Hy & E). apply String.eqb_eq in E. now subst.
  - intros H. exists x. split; [exact H | apply String.eqb_refl].
Qed.

Lemma includes_not_In (l : list string) (x : string) :
  FileViewer.includes l x = false <-> ~ In x l.
Proof.
  rewrite <- includes_In. destruct (FileViewer.includes l x); split; intros H;
    [discriminate | now exfalso; apply H | discriminate | reflexivity].
Qed.

Lemma FileViewer_by_strategy (filePath : string) :
  FileViewer.FileViewer filePath
  = FileViewer.view_of (FileViewer.strategy_of (FileViewer.extension filePath)) filePath.
Proof.
  unfold FileViewer.FileViewer, FileViewer.strategy_of, FileViewer.extension.
  set (o := FileViewer.fileExtension filePath).
  destruct (in_dec string_dec (or_else o "") ["docx"; "pptx"; "xlsx"]) as [Hin|Hout].
  - apply includes_In in Hin. now rewrite Hin.
  - apply includes_not_In in Hout. rewrite Hout.
    assert (Hpdf : match o with Some e => String.eqb e "pdf" | None => false end
                   = String.eqb (or_else o "") "pdf")
      by (destruct o as [e|]; [|reflexivity]; simpl;
          destruct (String.eqb_spec e "") as [->|_]; reflexivity).
    rewrite Hpdf.
    destruct (in_dec string_dec (or_else o "") ["pdf"; "png"; "jpg"; "txt"; "json"])
      as [Hin|Hno].
    + destruct Hin as [E|Hin].
      * rewrite <- E. reflexivity.
      * apply includes_In in Hin. rewrite Hin. now rewrite orb_true_r.
    + assert (H1 : String.eqb (or_else o "") "pdf" = false).
      { apply String.eqb_neq. intros E. apply Hno. left. now symmetry. }
      assert (H2 : FileViewer.includes ["png"; "jpg"; "txt"; "json"] (or_else o "") = false).
      { apply includes_not_In. intros Hin. apply Hno. now right. }
      now rewrite H1, H2.
Qed.

Lemma split_from_no_sep (sep : ascii) (e : string) : forall current : string,
  has_char sep e = false ->
  FileViewer.split_from sep current e = [current ++ e].
Proof.
  induction e as [|c e IH]; intros current H; simpl.
  - now rewrite append_empty_r.
  - simpl in H. apply orb_false_iff in H. destruct H as [Hc He].
    rewrite Hc, IH by exact He. unfold str. now rewrite append_assoc.
Qed.

Lemma split_from_nonempty (sep : ascii) (s : string) : forall current : string,
  FileViewer.split_from sep current s <> [].
Proof.
  induction s as [|c s IH]; intros current; simpl; [discriminate|].
  destruct (Ascii.eqb c sep); [discriminate | apply IH].
Qed.

Lemma pop_cons_split (sep : ascii) (x current s : string) :
  FileViewer.pop (x :: FileViewer.split_from sep current s)
  = FileViewer.pop (FileViewer.split_from sep current s).
Proof.
  pose proof (split_from_nonempty sep s current) as Hne.
  destruct (FileViewer.split_from sep current s); [congruence | reflexivity].
Qed.

Lemma pop_split_last (sep : ascii) (e stem : string) : forall current : string,
  has_char sep e = false ->
  FileViewer.pop (FileViewer.split_from sep current (stem ++ String sep e)) = Some e.
Proof.
  intros current He. revert current.
  induction stem as [|c stem IH]; intros current; simpl.
  - rewrite Ascii.eqb_refl, pop_cons_split, split_from_no_sep by exact He. reflexivity.
  - destruct (Ascii.eqb c sep); [rewrite pop_cons_split|]; apply IH.
Qed.

(** The extension of [stem.e], [e] without a dot, is [e] in lower case;
    that of a path without a dot is the whole path in lower case. *)
Lemma extension_after_last_dot (stem e : string) :
  has_char "."%char e = false ->
  FileViewer.extension (stem ++ String "."%char e) = FileViewer.toLowerCase e
  /\ FileViewer.extension e = FileViewer.toLowerCase e.
Proof.
  intros He. unfold FileViewer.extension, FileViewer.fileExtension, FileViewer.split.
  rewrite pop_split_last, split_from_no_sep by exact He.
  assert (E : forall x, or_else (Some x) "" = x).
  { intros x. simpl. destruct (String.eqb_spec x "") as [->|_]; reflexivity. }
  split; apply E.
Qed.

(** C8. The preview is chosen by the extension of the path alone (the
    lower-cased text after its last dot): the view is the one of the strategy
    assigned to the extension, so two paths with the same extension get the
    same strategy; docx, pptx and xlsx give the office viewer URL with the
    URL-encoded direct file URL as its [src] parameter, pdf, png, jpg, txt
    and json give the direct file URL, and any other extension gives the
    download link alone. *)
Theorem preview_by_extension (filePath : string) :
  let ext := FileViewer.extension filePath in
  FileViewer.FileViewer filePath = FileViewer.view_of (FileViewer.strategy_of ext) filePath
  /\ (In ext ["docx"; "pptx"; "xlsx"] ->
       FileViewer.FileViewer filePath
       = FileViewer.IframeView
           (FileViewer.office_viewer
              ++ FileViewer.encodeURIComponent (FileViewer.fullFileUrl filePath)))
  /\ (In ext ["pdf"; "png"; "jpg"; "txt"; "json"] ->
       FileViewer.FileViewer filePath
       = FileViewer.IframeView (FileViewer.fullFileUrl filePath))
  /\ (~ In ext ["docx"; "pptx"; "xlsx"; "pdf"; "png"; "jpg"; "txt"; "json"] ->
       FileViewer.FileViewer filePath
       = FileViewer.DownloadLinkView (FileViewer.fullFileUrl filePath)).
Proof.
  cbv zeta. rewrite FileViewer_by_strategy. unfold FileViewer.strategy_of.
  set (ext := FileViewer.extension filePath).
  split; [reflexivity|]. split; [|split].
  - intros Hin.
    destruct (in_dec string_dec ext ["docx"; "pptx"; "xlsx"]); [reflexivity | contradiction].
  - intros Hin.
    destruct (in_dec string_dec ext ["docx"; "pptx"; "xlsx"]) as [Hoff|_].
    + exfalso. simpl in Hin, Hoff.
      destruct Hoff as [E|[E|[E|[]]]]; rewrite <- E in Hin;
        repeat (destruct Hin as [Hin|Hin]; [discriminate|]); exact Hin.
    + destruct (in_dec string_dec ext ["pdf"; "png"; "jpg"; "txt"; "json"]);
        [reflexivity | contradiction].
  - intros Hout.
    destruct (in_dec string_dec ext ["docx"; "pptx"; "xlsx"]) as [Hoff|_].
    + exfalso. apply Hout. simpl in *. tauto.
    + destruct (in_dec string_dec ext ["pdf"; "png"; "jpg"; "txt"; "json"]) as [Hdir|_];
        [|reflexivity].
      exfalso. apply Hout. simpl in *. tauto.
Qed.

Lemma preview_by_extension_witness :
  FileViewer.extension "s1/out/Report.DOCX" = "docx"
  /\ FileViewer.FileViewer "s1/out/Report.DOCX"
     = FileViewer.IframeView
         ("https://view.officeapps.live.com/op/embed.aspx?src="
            ++ "http%3A%2F%2Flocalhost%3A8000%2Fstatic-results%2Fs1%2Fout%2FReport.DOCX")
  /\ FileViewer.FileViewer "s1/fig.png"
     = FileViewer.IframeView "http://localhost:8000/static-results/s1/fig.png"
  /\ FileViewer.FileViewer "s1/notes.md"
     = FileViewer.DownloadLinkView "http://localhost:8000/static-results/s1/notes.md".
Proof.
  split; [reflexivity|]. split; [|split].
  - destruct (preview_by_extension "s1/out/Report.DOCX") as (_ & H & _).
    rewrite H; [reflexivity | simpl; tauto].
  - destruct (preview_by_extension "s1/fig.png") as (_ & _ & H & _).
    rewrite H; [reflexivity | simpl; tauto].
  - destruct (preview_by_extension "s1/notes.md") as (_ & _ & _ & H).
    rewrite H; [reflexivity|].
    simpl. intros Hin. repeat (destruct Hin as [Hin|Hin]; [discriminate|]). exact Hin.
Defined.

(** ** The HTTP client *)

Import GenerationService.


Lemma or_else_truthy (d b : string) : d <> "" -> or_else (Some d) b = d.
Proof. intros H. simpl. apply String.eqb_neq in H. now rewrite H. Qed.

Lemma or_else_falsy (a : option string) (b : string) : truthy a = false -> or_else a b = b.
Proof.
  destruct a as [s|]; simpl; [|reflexivity].
  destruct (String.eqb s ""); [reflexivity | discriminate].
Qed.

(** The two functions treat what [fetch] settles to in the same way. *)
Lemma checkJobStatus_as_upload (fetched : FetchResult) :
  checkJobStatus fetched = uploadAndProcessFile fetched.
Proof. reflexivity. Qed.

Lemma upload_cases (fetched : FetchResult) :
  (forall r, fetched = Responded r -> ok r = false ->
     exists m, uploadAndProcessFile fetched = Thrown m)
  /\ (forall r err d, fetched = Responded r -> ok r = false -> body r = inr err ->
        prop err "detail" = Some d -> d <> "" -> uploadAndProcessFile fetched = Thrown d)
  /\ (forall r err, fetched = Responded r -> ok r = false -> body r = inr err ->
        truthy (prop err "detail") = false ->
        uploadAndProcessFile fetched = Thrown ("HTTP error! status: " ++ dec (status r)))
  /\ (forall r j, fetched = Responded r -> ok r = true -> body r = inr j ->
        uploadAndProcessFile fetched = Returned j)
  /\ (forall r m, fetched = Responded r -> body r = inl m ->
        uploadAndProcessFile fetched = Thrown m)
  /\ (forall m, fetched = NetworkError m -> uploadAndProcessFile fetched = Thrown m)
  /\ (forall j, uploadAndProcessFile fetched = Returned j ->
        exists r, fetched = Responded r /\ ok r = true /\ body r = inr j).
Proof.
  repeat match goal with |- _ /\ _ => split end.
  - intros r -> Hok. unfold uploadAndProcessFile, json. rewrite Hok. simpl.
    destruct (body r); eauto.
  - intros r err d -> Hok Hb Hd Hne. unfold uploadAndProcessFile, json.
    rewrite Hok, Hb. simpl. now rewrite Hd, or_else_truthy.
  - intros r err -> Hok Hb Hd. unfold uploadAndProcessFile, json.
    rewrite Hok, Hb. simpl. now rewrite or_else_falsy.
  - intros r j -> Hok Hb. unfold uploadAndProcessFile, json. now rewrite Hok, Hb.
  - intros r m -> Hb. unfold uploadAndProcessFile, json. rewrite Hb. now destruct (ok r).
  - intros m ->. reflexivity.
  - intros j H. destruct fetched as [m|r]; [discriminate|].
    exists r. unfold uploadAndProcessFile, json in H. destruct (ok r) eqn:Hok; simpl in H.
    + destruct (body r) as [m|j']; [discriminate|]. now inversion H.
    + destruct (body r); discriminate.
Qed.






(** ** The controller *)

Import App Scenario.

Lemma clearInterval_not_In (id : nat) (ts : list (nat * string)) :
  ~ In id (map fst (clearInterval id ts)).
Proof.
  unfold clearInterval. intros Hin. apply in_map_iff in Hin.
  destruct Hin as ([t sid] & E & Hf). apply filter_In in Hf.
  destruct Hf as (_ & Hne). simpl in *. subst t.
  now rewrite Nat.eqb_refl in Hne.
Qed.

Lemma clear_poll_only_handle (w : World) :
  (forall t, In t (map fst (timers w)) -> pollInterval w = Some t) ->
  clear_poll w = [].
Proof.
  intros Hall. unfold clear_poll.
  destruct (pollInterval w) as [id|] eqn:Hp.
  - unfold clearInterval.
    assert (Hts : forall t, In t (map fst (timers w)) -> t = id).
    { intros t Hin. specialize (Hall t Hin). congruence. }
    clear Hall Hp.
    induction (timers w) as [|[t sid] ts IH]; [reflexivity|].
    simpl. rewrite (Hts t) by (now left). rewrite Nat.eqb_refl. simpl.
    apply IH. intros t' Hin. apply Hts. now right.
  - destruct (timers w) as [|[t sid] ts]; [reflexivity|].
    specialize (Hall t (or_introl eq_refl)). discriminate.
Qed.

(** C10. The reset. [handleFilesChange] stores the new selection, clears
    [downloadUrl], [error], [statusMessage], [fileTree] and [selectedFile],
    and cancels the interval held in [pollInterval] (every running interval,
    when that is the only one); it leaves [isLoading] as it was and the
    requests in flight untouched.  So from a state that is loading, the
    reset gives a state that is still loading, whose Generate button is
    disabled, and whose poll timer is cancelled. *)
Theorem reset_leaves_isLoading (w : World) (files : list BrowserFile) :
  let w' := handleFilesChange files w in
  isLoading (ui w') = isLoading (ui w)
  /\ uploadedFiles (ui w') = files
  /\ downloadUrl (ui w') = None
  /\ error (ui w') = None
  /\ statusMessage (ui w') = None
  /\ fileTree (ui w') = None
  /\ selectedFile (ui w') = None
  /\ pending w' = pending w
  /\ (forall t, pollInterval w = Some t -> ~ In t (map fst (timers w')))
  /\ ((forall t, In t (map fst (timers w)) -> pollInterval w = Some t) -> timers w' = [])
  /\ (isLoading (ui w) = true ->
       isLoading (ui w') = true /\ generate_enabled w' = false).
Proof.
  cbv zeta. repeat match goal with |- _ /\ _ => split end; try reflexivity.
  - intros t Ht. unfold handleFilesChange, clear_poll. cbn. rewrite Ht.
    apply clearInterval_not_In.
  - intros Hall. unfold handleFilesChange. cbn. now apply clear_poll_only_handle.
  - intros Hl. unfold generate_enabled, handleFilesChange. cbn. rewrite Hl.
    split; reflexivity.
Qed.

Lemma reset_leaves_isLoading_witness :
  isLoading (ui polling_world) = true
  /\ isLoading (ui (handleFilesChange ["other.pdf"] polling_world)) = true
  /\ generate_enabled (handleFilesChange ["other.pdf"] polling_world) = false
  /\ timers (handleFilesChange ["other.pdf"] polling_world) = [].
Proof.
  destruct (reset_leaves_isLoading polling_world ["other.pdf"])
    as (_ & _ & _ & _ & _ & _ & _ & _ & _ & Hts & Hl).
  split; [reflexivity|].
  destruct (Hl eq_refl) as [H1 H2].
  split; [exact H1|]. split; [exact H2|].
  apply Hts. intros t [<-|[]]. reflexivity.
Defined.

(** C1 (the code at the failing input). [handleGenerate] called twice, the
    second call before the first upload settles: each call clears the handle
    before its upload, none when its upload settles, so once both uploads
    have settled two intervals are running and [pollInterval] holds the
    second only.  The same happens through the Generate button alone,
    although the button is disabled while [isLoading] holds: a status
    request that fails late re-enables it while a new upload is in flight. *)
Theorem double_submit_two_timers :
  (exists w, run double_submit initial = Some w
     /\ pending w = []
     /\ timers w = [(1, "job-1"); (2, "job-2")]
     /\ pollInterval w = Some 2
     /\ ~ List.length (timers w) <= 1)
  /\ (exists w, run double_submit_by_button initial = Some w
        /\ pending w = []
        /\ timers w = [(2, "job-2"); (3, "job-3")]
        /\ pollInterval w = Some 3
        /\ ~ List.length (timers w) <= 1).
Proof.
  split; (eexists; split; [vm_compute; reflexivity|]);
    (split; [reflexivity|]); (split; [reflexivity|]); (split; [reflexivity|]);
    simpl; lia.
Qed.

(** *** Submissions that do not overlap keep a single timer *)

Lemma clear_poll_single (w : World) : single_timer w -> clear_poll w = [].
Proof.
  intros [[Hts | (t & sid & Hts & Hp & _)] _]; unfold clear_poll.
  - rewrite Hts. now destruct (pollInterval w).
  - rewrite Hp, Hts. unfold clearInterval. simpl. now rewrite Nat.eqb_refl.
Qed.

Lemma uploads_remove_le (id : nat) (l : list (nat * Awaiting)) :
  List.length (filter is_upload_wait (remove id l)) <= List.length (filter is_upload_wait l).
Proof.
  unfold remove. induction l as [|[k a] l IH]; [reflexivity|].
  simpl. destruct (negb (Nat.eqb k id)); simpl;
    destruct (is_upload_wait (k, a)); simpl; lia.
Qed.

Lemma uploads_remove_lt (id : nat) (l : list (nat * Awaiting)) :
  lookup id l = Some AwaitUpload ->
  List.length (filter is_upload_wait (remove id l)) < List.length (filter is_upload_wait l).
Proof.
  unfold remove. induction l as [|[k a] l IH]; [discriminate|].
  simpl. destruct (Nat.eqb k id) eqn:E; simpl.
  - intros H. inversion H; subst a. simpl.
    pose proof (uploads_remove_le id l) as Hle. unfold remove in Hle. lia.
  - intros H. specialize (IH H). destruct (is_upload_wait (k, a)); simpl; lia.
Qed.

Lemma uploads_issue_other (l : list (nat * Awaiting)) (k : nat) (a : Awaiting) :
  a <> AwaitUpload ->
  List.length (filter is_upload_wait (l ++ [(k, a)])) = List.length (filter is_upload_wait l).
Proof.
  intros Ha. rewrite filter_app, length_app. simpl.
  destruct a; simpl; try lia. congruence.
Qed.

Lemma single_timer_step (w w' : World) (e : Event) :
  single_timer w ->
  match e with
  | Generate | ClickGenerate => uploads w = 0
  | _ => True
  end ->
  step w e = Some w' ->
  single_timer w'.
Proof.
  intros Hinv Hserial Hstep.
  pose proof (clear_poll_single w Hinv) as Hclear.
  assert (Hgen : uploads w = 0 -> single_timer (handleGenerate w)).
  { intros Hu. unfold handleGenerate.
    destruct (uploadedFiles (ui w)); [exact Hinv|].
    unfold single_timer, uploads, issue, with_timers, with_ui. cbn -[clear_poll].
    rewrite Hclear. split; [now left|].
    unfold uploads in Hu. rewrite filter_app, length_app, Hu. simpl. lia. }
  destruct Hinv as [Hts Hle].
  destruct e as [files|path| | | |t|id fetched]; simpl in Hstep.
  - inversion Hstep; subst w'. unfold single_timer, uploads, handleFilesChange.
    cbn -[clear_poll]. rewrite Hclear. split; [now left | exact Hle].
  - inversion Hstep; subst w'. split; assumption.
  - inversion Hstep; subst w'. split; assumption.
  - inversion Hstep; subst w'. now apply Hgen.
  - destruct (generate_enabled w); [|discriminate].
    inversion Hstep; subst w'. now apply Hgen.
  - destruct (lookup t (timers w)) as [sid|]; [|discriminate].
    inversion Hstep; subst w'.
    unfold single_timer, uploads, tick, issue. cbn.
    rewrite uploads_issue_other by discriminate. split; assumption.
  - destruct (lookup id (pending w)) as [a|] eqn:Hid; [|discriminate].
    inversion Hstep; subst w'; clear Hstep.
    pose proof (uploads_remove_le id (pending w)) as Hrm.
    destruct a as [|sid|].
    + pose proof (uploads_remove_lt id (pending w) Hid) as Hlt.
      assert (Hnone : timers w = []).
      { destruct Hts as [Hts | (t & sid & _ & _ & Hu)]; [exact Hts|].
        unfold uploads in Hu. lia. }
      unfold upload_settled. cbn [ui timers next_timer pollInterval].
      destruct (uploadAndProcessFile fetched) as [result|m];
        unfold single_timer, uploads, with_ui; cbn; rewrite Hnone.
      * split; [|unfold uploads in Hle; lia].
        right. eexists _, _. split; [reflexivity|]. split; [reflexivity|].
        unfold uploads in Hle. lia.
      * split; [now left | unfold uploads in Hle; lia].
    + unfold status_settled. cbn [ui].
      destruct (checkJobStatus fetched) as [statusResult|m].
      * destruct (match prop statusResult "status" with
                  | Some st => String.eqb st "complete"
                  | None => false
                  end).
        -- destruct (truthy (prop statusResult "tree_url"));
             unfold single_timer, uploads, issue, with_timers, with_ui; cbn -[clear_poll];
             repeat match goal with
                    | |- context [clear_poll ?x] =>
                        progress change (clear_poll x) with (clear_poll w)
                    end;
             rewrite Hclear;
             rewrite ?uploads_issue_other by discriminate;
             (split; [now left | unfold uploads in Hle; lia]).
        -- unfold single_timer, uploads, with_ui. cbn. split; [|unfold uploads in Hle; lia].
           destruct Hts as [Hts | (t & sid' & Hts & Hp & Hu)]; [now left|].
           right. exists t, sid'. unfold uploads in Hu. repeat split; try assumption. lia.
      * unfold single_timer, uploads, with_timers, with_ui. cbn -[clear_poll].
        repeat match goal with
               | |- context [clear_poll ?x] =>
                   progress change (clear_poll x) with (clear_poll w)
               end.
        rewrite Hclear.
        split; [now left | unfold uploads in Hle; lia].
    + assert (Hui : forall u, single_timer
                (with_ui u (mkWorld (ui w) (pollInterval w) (timers w) (next_timer w)
                              (remove id (pending w)) (next_request w) (calls w)))).
      { intros u. unfold single_timer, uploads, with_ui. cbn.
        split; [|unfold uploads in Hle; lia].
        destruct Hts as [Hts | (t & sid' & Hts & Hp & Hu)]; [now left|].
        right. exists t, sid'. unfold uploads in Hu. repeat split; try assumption. lia. }
      unfold tree_settled. destruct fetched as [m|r]; [apply Hui|].
      destruct (json r); apply Hui.
Qed.

(** Whatever the events, as long as [handleGenerate] is not entered while an
    upload is in flight, at most one interval is running, and it is the one
    held in [pollInterval]. *)
Lemma serial_runs_one_timer (events : list Event) : forall w w' : World,
  single_timer w ->
  run_serial events w = Some w' ->
  single_timer w' /\ List.length (timers w') <= 1.
Proof.
  induction events as [|e events IH]; intros w w' Hinv Hrun.
  - inversion Hrun; subst w'. split; [exact Hinv|].
    destruct Hinv as [[Hts | (t & sid & Hts & _)] _]; rewrite Hts; simpl; lia.
  - simpl in Hrun.
    destruct (match e with
              | Generate | ClickGenerate => negb (Nat.eqb (uploads w) 0)
              | _ => false
              end) eqn:Hs; [discriminate|].
    destruct (step w e) as [w1|] eqn:Hstep; [|discriminate].
    apply (IH w1 w'); [|exact Hrun].
    apply (single_timer_step w w1 e Hinv); [|exact Hstep].
    destruct e; try exact I;
      apply negb_false_iff, Nat.eqb_eq in Hs; exact Hs.
Qed.

Lemma initial_single_timer : single_timer initial.
Proof. split; [now left | unfold uploads; simpl; lia]. Qed.

Lemma lookup_remove_other {A : Type} (k id : nat) (l : list (nat * A)) :
  lookup k l = None -> lookup k (remove id l) = None.
Proof.
  induction l as [|[k' a] l IH]; intros H; [reflexivity|].
  simpl in H. destruct (Nat.eqb k' k) eqn:E; [discriminate|].
  unfold remove in *. simpl. destruct (negb (Nat.eqb k' id)); simpl.
  - rewrite E. now apply IH.
  - now apply IH.
Qed.

Lemma lookup_issued {A : Type} (k : nat) (a : A) (l : list (nat * A)) :
  lookup k l = None -> lookup k (l ++ [(k, a)]) = Some a.
Proof.
  induction l as [|[k' a'] l IH]; intros H; simpl.
  - now rewrite Nat.eqb_refl.
  - simpl in H. destruct (Nat.eqb k' k); [discriminate | now apply IH].
Qed.

Lemma remove_issued {A : Type} (k : nat) (a : A) (l : list (nat * A)) :
  lookup k l = None -> remove k (l ++ [(k, a)]) = l.
Proof.
  unfold remove. induction l as [|[k' a'] l IH]; intros H; simpl.
  - now rewrite Nat.eqb_refl.
  - simpl in H. destruct (Nat.eqb k' k); [discriminate|]. simpl. now rewrite IH.
Qed.

(** X22. A poll answers [complete] with a non-empty [tree_url] while one job
    is being polled: polling stops (no interval is left running), loading
    ends, [downloadUrl] is set to the download URL of the session and one
    request for the tree is issued; the state shown is Complete.  When that
    request then fails (the fetch is rejected or its body is not JSON), the
    only change is the error message, set to the tree-load warning:
    [downloadUrl] is kept, loading stays off, no interval is restarted, and
    the state shown is still Complete, not Errored. *)
Theorem tree_failure_stays_complete (w : World) (id t : nat) (session_id tree_url : string)
    (fetched : FetchResult) (statusResult : Json) :
  lookup id (pending w) = Some (AwaitStatus session_id) ->
  lookup (next_request w) (pending w) = None ->
  pollInterval w = Some t ->
  timers w = [(t, session_id)] ->
  checkJobStatus fetched = Returned statusResult ->
  prop statusResult "status" = Some "complete" ->
  prop statusResult "tree_url" = Some tree_url ->
  tree_url <> "" ->
  exists w1,
    step w (Settle id fetched) = Some w1
    /\ timers w1 = []
    /\ isLoading (ui w1) = false
    /\ downloadUrl (ui w1) = Some (getDownloadUrl session_id)
    /\ statusMessage (ui w1) = Some "Processing complete!"
    /\ error (ui w1) = error (ui w)
    /\ calls w1 = (calls w ++ [CallTree (API_BASE_URL ++ tree_url)])%list
    /\ phase w1 = Complete
    /\ forall failure, tree_fetch_fails failure ->
         exists w2,
           step w1 (Settle (next_request w) failure) = Some w2
           /\ error (ui w2) = Some "Processing complete, but failed to load results tree."
           /\ downloadUrl (ui w2) = Some (getDownloadUrl session_id)
           /\ isLoading (ui w2) = false
           /\ statusMessage (ui w2) = Some "Processing complete!"
           /\ fileTree (ui w2) = fileTree (ui w)
           /\ timers w2 = []
           /\ calls w2 = calls w1
           /\ phase w2 = Complete.
Proof.
  intros Hid Hfresh Hp Hts Hst Hcomplete Htree Hne.
  assert (Htruthy : truthy (Some tree_url) = true).
  { simpl. apply String.eqb_neq in Hne. now rewrite Hne. }
  assert (Hclear : clearInterval t [(t, session_id)] = []).
  { unfold clearInterval. simpl. now rewrite Nat.eqb_refl. }
  assert (Hdl : truthy (Some (getDownloadUrl session_id)) = true) by reflexivity.
  eexists. split.
  { unfold step. rewrite Hid. unfold status_settled. cbn [ui pollInterval timers].
    rewrite Hst, Hcomplete. cbn [String.eqb Ascii.eqb Bool.eqb].
    rewrite Htree, Htruthy. reflexivity. }
  unfold issue, with_timers, with_ui, clear_poll, phase.
  cbn [ui pollInterval timers next_timer pending next_request calls
       isLoading downloadUrl statusMessage error fileTree template].
  rewrite Hp, Hts, Hclear, Hdl.
  repeat match goal with |- _ /\ _ => split end; try reflexivity.
  intros failure Hfail.
  assert (Hstep : lookup (next_request w)
                    (remove id (pending w) ++ [(next_request w, AwaitTree)]) = Some AwaitTree).
  { apply lookup_issued. now apply lookup_remove_other. }
  eexists. split.
  { unfold step. cbn [pending]. rewrite Hstep. reflexivity. }
  assert (Hfailed : forall w0, tree_settled failure w0
            = with_ui (mkState (uploadedFiles (ui w0)) (isLoading (ui w0))
                         (Some "Processing complete, but failed to load results tree.")
                         (fileTree (ui w0)) (statusMessage (ui w0)) (downloadUrl (ui w0))
                         (selectedFile (ui w0))) w0).
  { intros w0. unfold tree_settled. destruct failure as [m|r]; [reflexivity|].
    destruct Hfail as [m Hb]. unfold json. now rewrite Hb. }
  rewrite Hfailed. unfold with_ui, phase.
  cbn [ui pollInterval timers next_timer pending next_request calls
       isLoading downloadUrl statusMessage error fileTree].
  rewrite Hdl.
  repeat match goal with |- _ /\ _ => split end; reflexivity.
Qed.

Lemma tree_failure_stays_complete_witness :
  exists w1 w2,
    step polling_world
      (Settle 1 (ok_json [("status", "complete"); ("session_id", "job-1");
                          ("tree_url", "/static-results/job-1/tree.json")])) = Some w1
    /\ step w1 (Settle 2 (NetworkError "Failed to fetch")) = Some w2
    /\ phase w2 = Complete
    /\ downloadUrl (ui w2) = Some "http://localhost:8000/download-result/job-1"
    /\ error (ui w2) = Some "Processing complete, but failed to load results tree.".
Proof.
  destruct (tree_failure_stays_complete polling_world 1 1 "job-1"
              "/static-results/job-1/tree.json"
              (ok_json [("status", "complete"); ("session_id", "job-1");
                        ("tree_url", "/static-results/job-1/tree.json")])
              (JObject [("status", "complete"); ("session_id", "job-1");
                        ("tree_url", "/static-results/job-1/tree.json")])
              eq_refl eq_refl eq_refl eq_refl eq_refl eq_refl eq_refl)
    as (w1 & Hs1 & _ & _ & _ & _ & _ & _ & _ & Hfail); [discriminate|].
  destruct (Hfail (NetworkError "Failed to fetch") I)
    as (w2 & Hs2 & He & Hd & _ & _ & _ & _ & _ & Hph).
  exists w1, w2. repeat split; assumption.
Defined.

(** C9. The scenario of three polls: a job is submitted, the first two
    polls answer [processing], the third answers [complete] with a non-empty
    tree URL, and the tree request settles (to anything).  The calls issued
    are the upload, exactly three status calls for the session, and exactly
    one call to the tree URL; at the end [downloadUrl] is
    [getDownloadUrl session_id], the base URL followed by
    [/download-result/] and the session id, no interval is running and no
    request is in flight, so that no further tick or response can occur. *)
Theorem three_polls_then_complete (file session_id tree_url : string) (tree : FetchResult) :
  tree_url <> "" ->
  exists w,
    run (three_polls file session_id tree_url tree) initial = Some w
    /\ calls w = [CallUpload file; CallStatus session_id; CallStatus session_id;
                  CallStatus session_id; CallTree (API_BASE_URL ++ tree_url)]
    /\ map call_url (calls w)
       = ["http://localhost:8000/upload-and-process/";
          "http://localhost:8000/status/" ++ session_id;
          "http://localhost:8000/status/" ++ session_id;
          "http://localhost:8000/status/" ++ session_id;
          "http://localhost:8000" ++ tree_url]
    /\ List.length (filter is_status (calls w)) = 3
    /\ List.length (filter is_tree (calls w)) = 1
    /\ downloadUrl (ui w) = Some (getDownloadUrl session_id)
    /\ getDownloadUrl session_id = "http://localhost:8000/download-result/" ++ session_id
    /\ isLoading (ui w) = false
    /\ timers w = []
    /\ pending w = []
    /\ (forall t, step w (Tick t) = None)
    /\ (forall id fetched, step w (Settle id fetched) = None).
Proof.
  intros Hne.
  destruct tree_url as [|c tree_url]; [congruence|].
  destruct tree as [m|[code [m|j]]];
    (eexists; split; [vm_compute; reflexivity|]);
    repeat match goal with |- _ /\ _ => split end;
    try reflexivity; intros; reflexivity.
Qed.

Lemma three_polls_then_complete_witness :
  exists w,
    run (three_polls "paper.pdf" "job-1" "/static-results/job-1/tree.json"
           (Responded (mkResponse 200 (inr (JArray
              [mkFileTree "report.docx" File (Some "job-1/report.docx") None])))))
        initial = Some w
    /\ List.length (filter is_status (calls w)) = 3
    /\ List.length (filter is_tree (calls w)) = 1
    /\ downloadUrl (ui w) = Some "http://localhost:8000/download-result/job-1".
Proof.
  assert (Hne : "/static-results/job-1/tree.json" <> "") by discriminate.
  destruct (three_polls_then_complete "paper.pdf" "job-1" "/static-results/job-1/tree.json"
              (Responded (mkResponse 200 (inr (JArray
                 [mkFileTree "report.docx" File (Some "job-1/report.docx") None]))))
              Hne)
    as (w & Hrun & _ & _ & Hs & Ht & Hd & _).
  exists w. repeat split; assumption.
Defined.

(** C7 (the code on the failing input). The poll answers [complete] with a
    tree URL, and the request for the tree is answered [404] with the JSON
    body of an error.  The code does not test [treeResponse.ok]: the state
    shown is Complete and [downloadUrl] is kept, but no tree-load warning is
    set ([error] stays empty) and the error body is stored as the result
    tree. *)
Theorem tree_not_found_shows_no_warning :
  let not_found := mkResponse 404 (inr (JObject [("detail", "Not Found")])) in
  exists w1 w2,
    step polling_world
      (Settle 1 (ok_json [("status", "complete"); ("session_id", "job-1");
                          ("tree_url", "/static-results/job-1/tree.json")])) = Some w1
    /\ calls w1 = (calls polling_world
                    ++ [CallTree "http://localhost:8000/static-results/job-1/tree.json"])%list
    /\ ok not_found = false
    /\ step w1 (Settle 2 (Responded not_found)) = Some w2
    /\ phase w2 = Complete
    /\ timers w2 = []
    /\ downloadUrl (ui w2) = Some "http://localhost:8000/download-result/job-1"
    /\ error (ui w2) = None
    /\ error (ui w2) <> Some "Processing complete, but failed to load results tree."
    /\ fileTree (ui w2) = Some (JObject [("detail", "Not Found")]).
Proof.
  cbv zeta. eexists. eexists.
  split; [vm_compute; reflexivity|].
  split; [reflexivity|]. split; [reflexivity|].
  split; [vm_compute; reflexivity|].
  split; [reflexivity|]. split; [reflexivity|]. split; [reflexivity|].
  split; [reflexivity|]. split; [discriminate | reflexivity].
Qed.

(** A tree request answered by an error status with a JSON body is not a
    failure for the callback, whatever the status and the body: the body is
    stored as the tree and no message is set. *)
Lemma tree_error_status_is_stored (w : World) (code : nat) (j : Json) :
  tree_settled (Responded (mkResponse code (inr j))) w
  = with_ui (mkState (uploadedFiles (ui w)) (isLoading (ui w)) (error (ui w)) (Some j)
               (statusMessage (ui w)) (downloadUrl (ui w)) (selectedFile (ui w))) w.
Proof. reflexivity. Qed.

(** * Further properties of the code *)

(** ** The archive: what is kept when paths collide *)

Lemma find_set_member (path name body : string) (files : JSZip.Files) :
  find_member path (JSZip.set_member name body files)
  = if String.eqb name path then Some body else find_member path files.
Proof.
  induction files as [|[n c] files IH]; simpl.
  - reflexivity.
  - destruct (String.eqb_spec n name) as [->|Hne]; simpl.
    + destruct (String.eqb name path); reflexivity.
    + rewrite IH. destruct (String.eqb_spec n path) as [->|_]; [|reflexivity].
      destruct (String.eqb_spec name path) as [E|_]; [congruence | reflexivity].
Qed.

Lemma find_member_app (path : string) (a b : JSZip.Files) :
  find_member path (a ++ b)%list
  = match find_member path a with Some c => Some c | None => find_member path b end.
Proof.
  induction a as [|[n c] a IH]; simpl; [reflexivity|].
  destruct (String.eqb n path); [reflexivity | exact IH].
Qed.

Lemma find_write_all (path : string) (l : list (string * string)) : forall files : JSZip.Files,
  find_member path (write_all l files)
  = match find_member path (List.rev l) with
    | Some c => Some c
    | None => find_member path files
    end.
Proof.
  induction l as [|[n c] l IH]; intros files; [reflexivity|].
  change (write_all ((n, c) :: l) files) with (write_all l (JSZip.set_member n c files)).
  rewrite IH, find_set_member. simpl List.rev. rewrite find_member_app. simpl.
  destruct (find_member path (List.rev l)); [reflexivity|].
  destruct (String.eqb n path); reflexivity.
Qed.

Lemma set_member_names (name body : string) (files : JSZip.Files) :
  NoDup (map fst files) ->
  NoDup (map fst (JSZip.set_member name body files))
  /\ (forall x, In x (map fst (JSZip.set_member name body files))
               <-> x = name \/ In x (map fst files)).
Proof.
  induction files as [|[n c] files IH]; intros Hnd; simpl.
  - split; [repeat constructor; intros []|]. intros x. simpl. intuition.
  - inversion Hnd as [|? ? Hn Hrest]; subst.
    destruct (String.eqb_spec n name) as [->|Hne]; simpl.
    + split; [exact Hnd|]. intros x. simpl. intuition.
    + destruct (IH Hrest) as [IH1 IH2]. split.
      * constructor; [|exact IH1]. intros Hin. apply IH2 in Hin.
        destruct Hin as [E|Hin]; [congruence | contradiction].
      * intros x. simpl. rewrite IH2. intuition.
Qed.

Lemma set_member_length (name body : string) (files : JSZip.Files) :
  List.length (JSZip.set_member name body files) <= S (List.length files).
Proof.
  induction files as [|[n c] files IH]; simpl; [lia|].
  destruct (String.eqb n name); simpl; lia.
Qed.

Lemma write_all_length (l : list (string * string)) : forall files : JSZip.Files,
  List.length (write_all l files) <= List.length files + List.length l.
Proof.
  induction l as [|[n c] l IH]; intros files; [simpl; lia|].
  change (write_all ((n, c) :: l) files) with (write_all l (JSZip.set_member n c files)).
  specialize (IH (JSZip.set_member n c files)).
  pose proof (set_member_length n c files). simpl. lia.
Qed.

Lemma addNodeToZip_names_distinct (node : TreeNode) : forall (root : string) (files : JSZip.Files),
  NoDup (map fst files) -> NoDup (map fst (addNodeToZip root node files)).
Proof.
  induction node using TreeNode_forest_ind with
    (Q := fun cs => forall (root : string) (files : JSZip.Files),
            NoDup (map fst files) ->
            NoDup (map fst (fold_left (fun fs child => addNodeToZip root child fs) cs files))).
  - intros root files H. exact H.
  - intros root files H. simpl. apply IHnode0, IHnode, H.
  - intros root files H. destruct ty; [exact H|].
    destruct fd as [f|]; [|exact H].
    simpl. destruct (archive_entry f) as [fileName body].
    now apply set_member_names.
  - intros root files H. destruct ty.
    + simpl. now apply IHnode.
    + destruct fd as [f|]; [|exact H].
      simpl. destruct (archive_entry f) as [fileName body].
      now apply set_member_names.
Qed.

Lemma forest_names_distinct (tree : list TreeNode) : forall files : JSZip.Files,
  NoDup (map fst files) ->
  NoDup (map fst (fold_left (fun fs node => addNodeToZip "" node fs) tree files)).
Proof.
  induction tree as [|n tree IH]; intros files H; [exact H|].
  simpl. apply IH. now apply addNodeToZip_names_distinct.
Qed.

(** X1. Of the file entries of the archive (the entries written by
    [zip.file]; the directory entries that [zip.folder] records are not
    counted), no two have the same path, whatever the forest.  When only
    folder nodes have children, the file content found under a path is the
    one of the last artifact of the walk that resolves to that path (none
    when no artifact does), and there are at most as many file entries as
    artifacts. *)
Theorem archive_keeps_last_write (tree : list TreeNode) :
  NoDup (map fst (members (downloadResultsAsZip tree)))
  /\ (forallb files_are_leaves tree = true ->
       (forall path,
          find_member path (members (downloadResultsAsZip tree))
          = find_member path (List.rev (map expected_member (forest_artifacts tree))))
       /\ List.length (members (downloadResultsAsZip tree))
          <= List.length (forest_artifacts tree)).
Proof.
  unfold downloadResultsAsZip. cbn [members]. split.
  - apply forest_names_distinct. constructor.
  - intros Hwf. rewrite forest_writes by exact Hwf. split.
    + intros path. rewrite find_write_all.
      now destruct (find_member path (List.rev (map expected_member (forest_artifacts tree)))).
    + pose proof (write_all_length (map expected_member (forest_artifacts tree)) []) as H.
      rewrite length_map in H. exact H.
Qed.

Lemma archive_keeps_last_write_witness :
  forallb files_are_leaves twin_forest = true
  /\ find_member "a.html" (members (downloadResultsAsZip twin_forest)) = Some "second"
  /\ List.length (members (downloadResultsAsZip twin_forest)) <= 2.
Proof.
  destruct (archive_keeps_last_write twin_forest) as [_ H].
  destruct (H eq_refl) as [Hfind Hlen].
  split; [reflexivity|]. split; [rewrite Hfind; reflexivity | exact Hlen].
Defined.

(** ** The entry name of each kind *)

Lemma replace_first_after_stem (p rep stem s : string) :
  has_char "."%char stem = false ->
  replace_first (String "."%char p) rep (stem ++ s)
  = stem ++ replace_first (String "."%char p) rep s.
Proof.
  induction stem as [|c stem IH]; intros H; [reflexivity|].
  simpl in H. apply orb_false_iff in H. destruct H as [Hc Hstem].
  cbn [append replace_first String.prefix].
  destruct (ascii_dec "."%char c) as [E|_].
  - subst c. now rewrite Ascii.eqb_refl in Hc.
  - f_equal. now apply IH.
Qed.

(** X2. The name of an entry.  For a file name [stem.ext] whose stem holds
    no dot: when [ext] is the extension of the kind of the artifact (docx,
    pptx, xlsx) the entry is named [stem.html], [stem.txt] or [stem.csv];
    when it is the extension of another kind, or when the name is the bare
    stem, the entry keeps the name of the file. *)
Theorem entry_name_by_kind (f : GeneratedFile) (stem : string) :
  has_char "."%char stem = false ->
  (file_name f = stem ++ kind_extension (file_type f) ->
   fst (archive_entry f) = stem ++ entry_extension (file_type f))
  /\ (forall t, t <> file_type f -> file_name f = stem ++ kind_extension t ->
       fst (archive_entry f) = file_name f)
  /\ (file_name f = stem -> fst (archive_entry f) = stem).
Proof.
  intros Hstem. destruct f as [id name c]. unfold archive_entry, file_type.
  cbn [file_name file_content].
  assert (Hafter : forall p rep s,
            replace_first (String "."%char p) rep (stem ++ s)
            = stem ++ replace_first (String "."%char p) rep s)
    by (intros; now apply replace_first_after_stem).
  split; [|split].
  - intros ->. destruct c; cbn [fst kind_extension entry_extension];
      match goal with
      | |- replace_first (String _ ?p) ?rep (_ ++ ?s) = _ => rewrite (Hafter p rep s)
      end; reflexivity.
  - intros t Ht ->. destruct c, t; try congruence; cbn [fst kind_extension];
      match goal with
      | |- replace_first (String _ ?p) ?rep (_ ++ ?s) = _ => rewrite (Hafter p rep s)
      end; reflexivity.
  - intros ->. destruct c; cbn [fst];
      match goal with
      | |- replace_first (String _ ?p) ?rep _ = _ =>
          pose proof (Hafter p rep "") as E; rewrite append_empty_r in E;
          cbn in E; rewrite append_empty_r in E; exact E
      end.
Qed.

Lemma entry_name_by_kind_witness :
  fst (archive_entry (mkFile "f1" "deck.pptx" (SlidesContent []))) = "deck.txt"
  /\ fst (archive_entry (mkFile "f2" "deck.pptx" (GridContent []))) = "deck.pptx"
  /\ fst (archive_entry (mkFile "f3" "table" (GridContent []))) = "table".
Proof.
  split; [|split].
  - destruct (entry_name_by_kind (mkFile "f1" "deck.pptx" (SlidesContent [])) "deck" eq_refl)
      as (H & _). exact (H eq_refl).
  - destruct (entry_name_by_kind (mkFile "f2" "deck.pptx" (GridContent [])) "deck" eq_refl)
      as (_ & H & _). apply (H PPTX); [discriminate | reflexivity].
  - destruct (entry_name_by_kind (mkFile "f3" "table" (GridContent [])) "table" eq_refl)
      as (_ & _ & H). exact (H eq_refl).
Defined.

(** ** The spreadsheet text determines the grid *)

(** X3. Two grids whose rows each hold a cell and which give the same CSV
    text hold the same cell texts, row by row ([null] and [undefined] cells
    counting as empty strings): the serialisation loses nothing else. *)
Theorem csv_text_determines_grid (a b : list (list Cell)) :
  Forall (fun r => r <> []) a ->
  Forall (fun r => r <> []) b ->
  convertXlsxToCsv a = convertXlsxToCsv b ->
  map (map cell_text) a = map (map cell_text) b.
Proof.
  intros Ha Hb E.
  pose proof (parse_grid a []) as Pa. pose proof (parse_grid b []) as Pb.
  rewrite E, Pb in Pa. simpl in Pa.
  rewrite (without_empty_last_full a Ha), (without_empty_last_full b Hb) in Pa.
  now inversion Pa.
Qed.

Lemma csv_text_determines_grid_witness :
  convertXlsxToCsv [[None; Some "x"]] = convertXlsxToCsv [[Some ""; Some "x"]]
  /\ map (map cell_text) [[None; Some "x"]] = map (map cell_text) [[Some ""; Some "x"]].
Proof.
  assert (Ha : Forall (fun r : list Cell => r <> []) [[None; Some "x"]])
    by (repeat constructor; discriminate).
  assert (Hb : Forall (fun r : list Cell => r <> []) [[Some ""; Some "x"]])
    by (repeat constructor; discriminate).
  split; [reflexivity|].
  exact (csv_text_determines_grid _ _ Ha Hb eq_refl).
Defined.

(** ** The preview URL and the extension *)

Lemma percent_encode_shape (c : ascii) :
  exists h l,
    FileViewer.percent_encode c = String "%"%char (String h (String l EmptyString))
    /\ FileViewer.unreserved h = true /\ FileViewer.unreserved l = true
    /\ ascii_of_nat (16 * hex_value h + hex_value l) = c.
Proof.
  unfold FileViewer.percent_encode. do 2 eexists. split; [reflexivity|].
  destruct c as [[] [] [] [] [] [] [] []]; repeat split; reflexivity.
Qed.

Lemma all_chars_has_char (p : ascii -> bool) (x : ascii) (s : string) :
  all_chars p s = true -> p x = false -> has_char x s = false.
Proof.
  induction s as [|c s IH]; intros Hall Hx; [reflexivity|].
  simpl in *. apply andb_true_iff in Hall. destruct Hall as [Hc Hs].
  rewrite IH by assumption. rewrite orb_false_r.
  destruct (Ascii.eqb_spec c x) as [->|_]; [congruence | reflexivity].
Qed.

Lemma encode_chars (s : string) :
  all_chars (fun c => FileViewer.unreserved c || Ascii.eqb c "%"%char)
    (FileViewer.encodeURIComponent s) = true.
Proof.
  induction s as [|c s IH]; [reflexivity|].
  cbn [FileViewer.encodeURIComponent]. destruct (FileViewer.unreserved c) eqn:Hc.
  - simpl. now rewrite Hc, IH.
  - destruct (percent_encode_shape c) as (h & l & -> & Hh & Hl & _).
    simpl. now rewrite Hh, Hl, IH.
Qed.

(** X4. For a docx, pptx or xlsx path the viewer URL is the office viewer
    address followed by the encoded direct URL, in which no reserved
    character is left: a character that is neither a letter, a digit, one of
    the marks - _ . ! ~ * ' ( ) nor the percent sign never occurs in it, so
    no character of the path can end or extend the [src] parameter.  A text
    made of unreserved characters only is encoded as itself. *)
Theorem office_viewer_url_is_encoded (filePath : string) :
  (In (FileViewer.extension filePath) ["docx"; "pptx"; "xlsx"] ->
   exists encoded,
     FileViewer.FileViewer filePath
     = FileViewer.IframeView (FileViewer.office_viewer ++ encoded)
     /\ encoded = FileViewer.encodeURIComponent (FileViewer.fullFileUrl filePath)
     /\ forall x, FileViewer.unreserved x = false -> x <> "%"%char ->
                  has_char x encoded = false)
  /\ (all_chars FileViewer.unreserved filePath = true ->
      FileViewer.encodeURIComponent filePath = filePath).
Proof.
  split.
  - intros Hin. eexists. split; [|split; [reflexivity|]].
    + rewrite FileViewer_by_strategy. unfold FileViewer.strategy_of.
      destruct (in_dec string_dec (FileViewer.extension filePath) ["docx"; "pptx"; "xlsx"]);
        [reflexivity | contradiction].
    + intros x Hx Hp.
      apply (all_chars_has_char _ x _ (encode_chars (FileViewer.fullFileUrl filePath))).
      rewrite Hx. simpl. destruct (Ascii.eqb_spec x "%"%char); [contradiction | reflexivity].
  - induction filePath as [|c s IH]; intros Hall; [reflexivity|].
    cbn [all_chars FileViewer.encodeURIComponent] in *.
    apply andb_true_iff in Hall. destruct Hall as [Hc Hs].
    now rewrite Hc, IH.
Qed.

Lemma office_viewer_url_is_encoded_witness :
  exists encoded,
    FileViewer.FileViewer "s1/a&b=c?.docx"
    = FileViewer.IframeView (FileViewer.office_viewer ++ encoded)
    /\ has_char "&"%char encoded = false
    /\ has_char "/"%char encoded = false
    /\ has_char "?"%char encoded = false.
Proof.
  destruct (office_viewer_url_is_encoded "s1/a&b=c?.docx") as [H _].
  destruct H as (encoded & Hview & _ & Hsafe); [simpl; tauto|].
  exists encoded. split; [exact Hview|].
  repeat split; apply Hsafe; solve [reflexivity | discriminate].
Defined.

Lemma append_cancel_l (p a b : string) : p ++ a = p ++ b -> a = b.
Proof.
  induction p as [|c p IH]; simpl; intros E; [exact E|].
  inversion E. now apply IH.
Qed.

Lemma percent_decode_encode (s : string) :
  percent_decode (FileViewer.encodeURIComponent s) = s.
Proof.
  induction s as [|c s IH]; [reflexivity|].
  cbn [FileViewer.encodeURIComponent]. destruct (FileViewer.unreserved c) eqn:Hc.
  - cbn [percent_decode]. destruct (Ascii.eqb_spec c "%"%char) as [->|_]; [discriminate|].
    now rewrite IH.
  - destruct (percent_encode_shape c) as (h & l & -> & _ & _ & E).
    cbn [append percent_decode]. rewrite Ascii.eqb_refl. now rewrite E, IH.
Qed.

(** X5. The view determines the file: two different paths never render
    the same view, whatever their extensions.  For the office viewer this
    rests on [encodeURIComponent] losing nothing: reading every [%XY] of the
    encoded text back as the byte [XY] gives the text that was encoded. *)
Theorem view_determines_path (p q : string) :
  percent_decode (FileViewer.encodeURIComponent p) = p
  /\ (FileViewer.FileViewer p = FileViewer.FileViewer q -> p = q).
Proof.
  split; [apply percent_decode_encode|].
  assert (Hinj : forall a b,
            FileViewer.encodeURIComponent a = FileViewer.encodeURIComponent b -> a = b).
  { intros a b E. rewrite <- (percent_decode_encode a), E. apply percent_decode_encode. }
  rewrite !FileViewer_by_strategy.
  destruct (FileViewer.strategy_of (FileViewer.extension p)),
           (FileViewer.strategy_of (FileViewer.extension q));
    unfold FileViewer.view_of; intros E; try discriminate E.
  - injection E as E'. now apply Hinj.
  - injection E as E'. exact E'.
  - injection E as E'. exact E'.
Qed.

Lemma view_determines_path_witness :
  percent_decode "http%3A%2F%2Flocalhost%3A8000%2Fstatic-results%2Fa%20b%2Fr.docx"
  = "http://localhost:8000/static-results/a b/r.docx"
  /\ "a b/r.docx" = "a b/r.docx".
Proof.
  destruct (view_determines_path "http://localhost:8000/static-results/a b/r.docx" "")
    as [H _].
  destruct (view_determines_path "a b/r.docx" "a b/r.docx") as [_ Hview].
  split; [exact H | exact (Hview eq_refl)].
Defined.

(** X6. The extension that decides the preview is the text after the last
    dot of the path, in lower case, so upper and lower case extensions are
    treated alike; a path without a dot is its own extension (a file named
    [docx] goes to the office viewer), and a path that ends in a dot has the
    empty extension and is offered for download only. *)
Theorem preview_extension_is_last_segment (stem e : string) :
  has_char "."%char e = false ->
  FileViewer.extension (stem ++ String "."%char e) = FileViewer.toLowerCase e
  /\ FileViewer.extension e = FileViewer.toLowerCase e
  /\ FileViewer.FileViewer (stem ++ String "."%char e)
     = FileViewer.view_of (FileViewer.strategy_of (FileViewer.toLowerCase e))
         (stem ++ String "."%char e)
  /\ FileViewer.FileViewer (stem ++ ".")
     = FileViewer.DownloadLinkView (FileViewer.fullFileUrl (stem ++ ".")).
Proof.
  intros He. destruct (extension_after_last_dot stem e He) as [E1 E2].
  split; [exact E1|]. split; [exact E2|]. split.
  - now rewrite FileViewer_by_strategy, E1.
  - destruct (extension_after_last_dot stem "" eq_refl) as [E0 _].
    rewrite FileViewer_by_strategy, E0. reflexivity.
Qed.

Lemma preview_extension_is_last_segment_witness :
  FileViewer.extension "s1/v1.2/Slides.PPTX" = "pptx"
  /\ FileViewer.extension "docx" = "docx"
  /\ FileViewer.FileViewer "s1/v1.2/Slides.PPTX"
     = FileViewer.view_of FileViewer.OfficeViewer "s1/v1.2/Slides.PPTX"
  /\ FileViewer.FileViewer "s1/notes."
     = FileViewer.DownloadLinkView "http://localhost:8000/static-results/s1/notes.".
Proof.
  destruct (preview_extension_is_last_segment "s1/v1.2/Slides" "PPTX" eq_refl)
    as (E1 & _ & E3 & _).
  destruct (preview_extension_is_last_segment "s1/notes" "docx" eq_refl)
    as (_ & E2 & _ & E4).
  repeat split; assumption.
Defined.

(** X7. The label of the viewed file is the text after the last slash of
    the path; a path without a slash is its own label, and a path that ends
    in a slash has the empty label. *)
Theorem display_name_is_last_segment (dir name : string) :
  has_char "/"%char name = false ->
  displayName (dir ++ String "/"%char name) = Some name
  /\ displayName name = Some name
  /\ displayName (dir ++ "/") = Some "".
Proof.
  intros Hn. unfold displayName, FileViewer.split.
  rewrite pop_split_last by exact Hn.
  rewrite split_from_no_sep by exact Hn.
  rewrite (pop_split_last "/"%char "" dir "" eq_refl).
  repeat split.
Qed.

Lemma display_name_is_last_segment_witness :
  displayName "job-1/out/report.docx" = Some "report.docx"
  /\ displayName "report.docx" = Some "report.docx".
Proof.
  destruct (display_name_is_last_segment "job-1/out" "report.docx" eq_refl) as (H1 & H2 & _).
  split; assumption.
Defined.

(** ** The URLs of a session *)

(** X8. The status URL and the download URL of a session are the base URL,
    the fixed route and the session id, and each determines the session:
    two sessions never share a status URL or a download URL. *)
Theorem session_urls_determine_session (a b : string) :
  getDownloadUrl a = "http://localhost:8000/download-result/" ++ a
  /\ status_url a = "http://localhost:8000/status/" ++ a
  /\ (getDownloadUrl a = getDownloadUrl b -> a = b)
  /\ (status_url a = status_url b -> a = b)
  /\ getDownloadUrl a <> status_url b.
Proof.
  split; [reflexivity|]. split; [reflexivity|]. split; [|split].
  - unfold getDownloadUrl. intros E.
    apply append_cancel_l in E. now apply append_cancel_l in E.
  - unfold status_url. intros E.
    apply append_cancel_l in E. now apply append_cancel_l in E.
  - unfold getDownloadUrl, status_url. intros E.
    apply append_cancel_l in E. discriminate.
Qed.

Lemma session_urls_determine_session_witness :
  status_url "job-1" = "http://localhost:8000/status/job-1"
  /\ "job-1" = "job-1".
Proof.
  destruct (session_urls_determine_session "job-1" "job-1") as (_ & E & _ & H & _).
  split; [exact E | exact (H eq_refl)].
Defined.

(** ** The controller: what each response does *)

(** What the callback sees when the one job being polled is answered. *)
Ltac settle_status w Hid :=
  unfold step; rewrite Hid; unfold status_settled; cbn [ui pollInterval timers].

(** X9. A poll answers [complete] without a usable [tree_url] (absent or
    empty) while one job is being polled: polling stops, loading ends,
    [downloadUrl] is the download URL of the session, and nothing else
    happens: no request is issued, [fileTree] and [error] stay as they were.
    The state shown is Complete. *)
Theorem complete_without_tree_url (w : World) (id t : nat) (session_id : string)
    (fetched : FetchResult) (statusResult : Json) :
  lookup id (pending w) = Some (AwaitStatus session_id) ->
  pollInterval w = Some t ->
  timers w = [(t, session_id)] ->
  checkJobStatus fetched = Returned statusResult ->
  prop statusResult "status" = Some "complete" ->
  truthy (prop statusResult "tree_url") = false ->
  exists w1,
    step w (Settle id fetched) = Some w1
    /\ timers w1 = []
    /\ isLoading (ui w1) = false
    /\ downloadUrl (ui w1) = Some (getDownloadUrl session_id)
    /\ statusMessage (ui w1) = Some "Processing complete!"
    /\ fileTree (ui w1) = fileTree (ui w)
    /\ error (ui w1) = error (ui w)
    /\ calls w1 = calls w
    /\ pending w1 = remove id (pending w)
    /\ phase w1 = Complete.
Proof.
  intros Hid Hp Hts Hst Hcomplete Htree.
  eexists. split.
  { settle_status w Hid. rewrite Hst, Hcomplete. cbn [String.eqb Ascii.eqb Bool.eqb].
    rewrite Htree. reflexivity. }
  unfold with_timers, with_ui, clear_poll, phase.
  cbn [ui pollInterval timers next_timer pending next_request calls
       isLoading downloadUrl statusMessage error fileTree].
  rewrite Hp, Hts. unfold clearInterval. cbn [filter fst]. rewrite Nat.eqb_refl.
  repeat match goal with |- _ /\ _ => split end; reflexivity.
Qed.

Lemma complete_without_tree_url_witness :
  exists w1,
    step polling_world
      (Settle 1 (ok_json [("status", "complete"); ("session_id", "job-1"); ("tree_url", "")]))
    = Some w1
    /\ phase w1 = Complete
    /\ fileTree (ui w1) = None
    /\ error (ui w1) = None
    /\ calls w1 = calls polling_world.
Proof.
  destruct (complete_without_tree_url polling_world 1 1 "job-1"
              (ok_json [("status", "complete"); ("session_id", "job-1"); ("tree_url", "")])
              (JObject [("status", "complete"); ("session_id", "job-1"); ("tree_url", "")])
              eq_refl eq_refl eq_refl eq_refl eq_refl eq_refl)
    as (w1 & Hs & _ & _ & _ & _ & Hft & Her & Hc & _ & Hph).
  exists w1. repeat split; assumption.
Defined.

(** X10. A status request fails (rejected, not JSON, or a non-2xx answer)
    while one job is being polled: polling stops, loading ends and [error]
    is the fixed text [Error checking job status. Please try again.]; the
    message of the failure itself is not shown.  [downloadUrl] and
    [statusMessage] keep their values and no request is issued; with no
    download URL set the state shown is Errored. *)
Theorem status_failure_stops_polling (w : World) (id t : nat) (session_id message : string)
    (fetched : FetchResult) :
  lookup id (pending w) = Some (AwaitStatus session_id) ->
  pollInterval w = Some t ->
  timers w = [(t, session_id)] ->
  checkJobStatus fetched = Thrown message ->
  exists w1,
    step w (Settle id fetched) = Some w1
    /\ timers w1 = []
    /\ isLoading (ui w1) = false
    /\ error (ui w1) = Some "Error checking job status. Please try again."
    /\ downloadUrl (ui w1) = downloadUrl (ui w)
    /\ statusMessage (ui w1) = statusMessage (ui w)
    /\ calls w1 = calls w
    /\ (truthy (downloadUrl (ui w)) = false -> phase w1 = Errored).
Proof.
  intros Hid Hp Hts Hst.
  eexists. split.
  { settle_status w Hid. rewrite Hst. reflexivity. }
  unfold with_timers, with_ui, clear_poll, phase.
  cbn [ui pollInterval timers next_timer pending next_request calls
       isLoading downloadUrl statusMessage error fileTree].
  rewrite Hp, Hts. unfold clearInterval. cbn [filter fst]. rewrite Nat.eqb_refl.
  repeat match goal with |- _ /\ _ => split end; try reflexivity.
  intros Hd. now rewrite Hd.
Qed.

Lemma status_failure_stops_polling_witness :
  exists w1,
    step polling_world
      (Settle 1 (Responded (mkResponse 500 (inr (JObject [("detail", "worker crashed")])))))
    = Some w1
    /\ timers w1 = []
    /\ error (ui w1) = Some "Error checking job status. Please try again."
    /\ phase w1 = Errored.
Proof.
  destruct (status_failure_stops_polling polling_world 1 1 "job-1" "worker crashed"
              (Responded (mkResponse 500 (inr (JObject [("detail", "worker crashed")]))))
              eq_refl eq_refl eq_refl eq_refl)
    as (w1 & Hs & Hts & _ & He & _ & _ & _ & Hph).
  exists w1. repeat split; try assumption. now apply Hph.
Defined.

(** X11. An upload fails: loading ends and [error] is [Upload failed: ]
    followed by the message of the failure, which for a non-2xx answer with
    a non-empty [detail] is that detail; no interval is started, the handle
    is untouched and no request is issued.  With no download URL set the
    state shown is Errored. *)
Theorem upload_failure_is_reported (w : World) (id : nat) (fetched : FetchResult) :
  lookup id (pending w) = Some AwaitUpload ->
  (forall message, uploadAndProcessFile fetched = Thrown message ->
     exists w1,
       step w (Settle id fetched) = Some w1
       /\ error (ui w1) = Some ("Upload failed: " ++ message)
       /\ isLoading (ui w1) = false
       /\ timers w1 = timers w
       /\ pollInterval w1 = pollInterval w
       /\ calls w1 = calls w
       /\ (truthy (downloadUrl (ui w)) = false -> phase w1 = Errored))
  /\ (forall r err d, fetched = Responded r -> ok r = false -> body r = inr err ->
        prop err "detail" = Some d -> d <> "" ->
        exists w1,
          step w (Settle id fetched) = Some w1
          /\ error (ui w1) = Some ("Upload failed: " ++ d)).
Proof.
  intros Hid.
  assert (Hthrown : forall message, uploadAndProcessFile fetched = Thrown message ->
     exists w1,
       step w (Settle id fetched) = Some w1
       /\ error (ui w1) = Some ("Upload failed: " ++ message)
       /\ isLoading (ui w1) = false
       /\ timers w1 = timers w
       /\ pollInterval w1 = pollInterval w
       /\ calls w1 = calls w
       /\ (truthy (downloadUrl (ui w)) = false -> phase w1 = Errored)).
  { intros message Hup. eexists. split.
    { unfold step. rewrite Hid. unfold upload_settled. rewrite Hup. reflexivity. }
    unfold with_ui, phase.
    cbn [ui pollInterval timers next_timer pending next_request calls
         isLoading downloadUrl statusMessage error fileTree].
    repeat match goal with |- _ /\ _ => split end; try reflexivity.
    intros Hd. now rewrite Hd. }
  split; [exact Hthrown|].
  intros r err d Hf Hok Hb Hd Hne.
  destruct (upload_cases fetched) as (_ & Hdetail & _).
  destruct (Hthrown d (Hdetail r err d Hf Hok Hb Hd Hne)) as (w1 & Hs & He & _).
  exists w1. split; assumption.
Qed.

Lemma upload_failure_is_reported_witness :
  exists w w1,
    run [FilesChange ["notes.txt"]; ClickGenerate] initial = Some w
    /\ step w (Settle 0 (Responded (mkResponse 400
                  (inr (JObject [("detail", "Only PDF files are accepted")]))))) = Some w1
    /\ error (ui w1) = Some "Upload failed: Only PDF files are accepted"
    /\ timers w1 = [].
Proof.
  eexists. 
  destruct (upload_failure_is_reported
              (handleGenerate (handleFilesChange ["notes.txt"] initial)) 0
              (Responded (mkResponse 400
                 (inr (JObject [("detail", "Only PDF files are accepted")]))))
              eq_refl) as [Hthrown _].
  destruct (Hthrown "Only PDF files are accepted" eq_refl)
    as (w1 & Hs & He & _ & Hts & _).
  exists w1. split; [reflexivity|]. split; [exact Hs|]. split; [exact He | exact Hts].
Defined.

(** X12. A status answer whose [status] is anything but [complete]
    (processing, missing, or any other word such as a failure word) only
    refreshes the status message: the interval keeps running, loading,
    [error], [downloadUrl] and [fileTree] keep their values and no request
    is issued. *)
Theorem other_status_keeps_polling (w : World) (id : nat) (session_id : string)
    (fetched : FetchResult) (statusResult : Json) :
  lookup id (pending w) = Some (AwaitStatus session_id) ->
  checkJobStatus fetched = Returned statusResult ->
  prop statusResult "status" <> Some "complete" ->
  exists w1,
    step w (Settle id fetched) = Some w1
    /\ timers w1 = timers w
    /\ pollInterval w1 = pollInterval w
    /\ isLoading (ui w1) = isLoading (ui w)
    /\ statusMessage (ui w1) = Some ("Processing... (Job ID: " ++ session_id ++ ")")
    /\ error (ui w1) = error (ui w)
    /\ downloadUrl (ui w1) = downloadUrl (ui w)
    /\ fileTree (ui w1) = fileTree (ui w)
    /\ calls w1 = calls w.
Proof.
  intros Hid Hst Hother.
  assert (Hno : match prop statusResult "status" with
                | Some st => String.eqb st "complete"
                | None => false
                end = false).
  { destruct (prop statusResult "status") as [st|]; [|reflexivity].
    apply String.eqb_neq. congruence. }
  eexists. split.
  { settle_status w Hid. rewrite Hst, Hno. reflexivity. }
  repeat match goal with |- _ /\ _ => split end; reflexivity.
Qed.

Lemma other_status_keeps_polling_witness :
  exists w1,
    step polling_world (Settle 1 (ok_json [("status", "failed"); ("session_id", "job-1")]))
    = Some w1
    /\ timers w1 = [(1, "job-1")]
    /\ isLoading (ui w1) = true
    /\ error (ui w1) = None.
Proof.
  destruct (other_status_keeps_polling polling_world 1 "job-1"
              (ok_json [("status", "failed"); ("session_id", "job-1")])
              (JObject [("status", "failed"); ("session_id", "job-1")])
              eq_refl eq_refl) as (w1 & Hs & Hts & _ & Hl & _ & He & _); [discriminate|].
  exists w1. repeat split; assumption.
Defined.

(** X13. A reset does not cancel the requests in flight.  A status request
    issued before [handleFilesChange] and answered [complete] after it marks
    the job complete over the new selection: loading ends and [downloadUrl]
    is set to the download URL of the old session.  An upload issued before
    the reset and answered after it starts the interval of its session. *)
Theorem reset_keeps_requests_in_flight (w : World) (files : list BrowserFile) (id : nat)
    (fetched : FetchResult) (result : Json) :
  (forall session_id,
     lookup id (pending w) = Some (AwaitStatus session_id) ->
     checkJobStatus fetched = Returned result ->
     prop result "status" = Some "complete" ->
     exists w1,
       step (handleFilesChange files w) (Settle id fetched) = Some w1
       /\ uploadedFiles (ui w1) = files
       /\ downloadUrl (ui w1) = Some (getDownloadUrl session_id)
       /\ isLoading (ui w1) = false
       /\ statusMessage (ui w1) = Some "Processing complete!")
  /\ (lookup id (pending w) = Some AwaitUpload ->
      uploadAndProcessFile fetched = Returned result ->
      exists w1,
        step (handleFilesChange files w) (Settle id fetched) = Some w1
        /\ uploadedFiles (ui w1) = files
        /\ pollInterval w1 = Some (next_timer w)
        /\ In (next_timer w, template (prop result "session_id")) (timers w1)
        /\ isLoading (ui w1) = isLoading (ui w)).
Proof.
  split.
  - intros session_id Hid Hst Hcomplete.
    assert (Hid' : lookup id (pending (handleFilesChange files w))
                   = Some (AwaitStatus session_id)) by exact Hid.
    eexists. split.
    { unfold step. rewrite Hid'. unfold status_settled. rewrite Hst, Hcomplete.
      cbn [String.eqb Ascii.eqb Bool.eqb]. reflexivity. }
    destruct (truthy (prop result "tree_url")); repeat split.
  - intros Hid Hup.
    assert (Hid' : lookup id (pending (handleFilesChange files w)) = Some AwaitUpload)
      by exact Hid.
    eexists. split.
    { unfold step. rewrite Hid'. unfold upload_settled. rewrite Hup. reflexivity. }
    cbn [ui pollInterval timers next_timer pending next_request calls
         handleFilesChange with_timers with_ui uploadedFiles isLoading].
    repeat match goal with |- _ /\ _ => split end; try reflexivity.
    apply in_or_app. right. now left.
Qed.

Lemma reset_keeps_requests_in_flight_witness :
  exists w1,
    step (handleFilesChange ["other.pdf"] polling_world)
      (Settle 1 (ok_json [("status", "complete"); ("session_id", "job-1")])) = Some w1
    /\ uploadedFiles (ui w1) = ["other.pdf"]
    /\ downloadUrl (ui w1) = Some "http://localhost:8000/download-result/job-1".
Proof.
  destruct (reset_keeps_requests_in_flight polling_world ["other.pdf"] 1
              (ok_json [("status", "complete"); ("session_id", "job-1")])
              (JObject [("status", "complete"); ("session_id", "job-1")])) as [H _].
  destruct (H "job-1" eq_refl eq_refl eq_refl) as (w1 & Hs & Hf & Hd & _).
  exists w1. repeat split; assumption.
Defined.

(** ** The controller: invariants of its runs *)

(** X14. From the initial state, as long as [handleGenerate] is not entered
    while an upload is in flight, at most one interval is running at any
    time and it is the one held in [pollInterval], whatever the order of
    selections, ticks and responses (late and failed ones included). *)
Theorem serial_submissions_keep_one_interval (events : list Event) (w : World) :
  run_serial events initial = Some w ->
  List.length (timers w) <= 1
  /\ (forall t session_id, In (t, session_id) (timers w) -> pollInterval w = Some t).
Proof.
  intros Hrun.
  destruct (serial_runs_one_timer events initial w initial_single_timer Hrun)
    as [[[Hts | (t & sid & Hts & Hp & _)] _] Hlen].
  - split; [exact Hlen|]. intros t sid Hin. rewrite Hts in Hin. contradiction.
  - split; [exact Hlen|]. intros t' sid' Hin. rewrite Hts in Hin.
    destruct Hin as [E|[]]. inversion E; subst. exact Hp.
Qed.

Lemma serial_submissions_keep_one_interval_witness :
  exists w,
    run_serial [FilesChange ["paper.pdf"]; ClickGenerate;
                Settle 0 (ok_json [("session_id", "job-1")]); Tick 1; Tick 1;
                Settle 1 (NetworkError "Failed to fetch"); ClickGenerate;
                Settle 2 (NetworkError "Failed to fetch");
                Settle 3 (ok_json [("session_id", "job-2")])] initial = Some w
    /\ timers w = [(2, "job-2")]
    /\ List.length (timers w) <= 1.
Proof.
  eexists. split; [vm_compute; reflexivity|]. split; [reflexivity|].
  refine (proj1 (serial_submissions_keep_one_interval
    [FilesChange ["paper.pdf"]; ClickGenerate;
     Settle 0 (ok_json [("session_id", "job-1")]); Tick 1; Tick 1;
     Settle 1 (NetworkError "Failed to fetch"); ClickGenerate;
     Settle 2 (NetworkError "Failed to fetch");
     Settle 3 (ok_json [("session_id", "job-2")])] _ _)).
  vm_compute. reflexivity.
Defined.

Lemma clearInterval_keeps (t id : nat) (session_id : string) (ts : list (nat * string)) :
  id <> t -> In (t, session_id) ts -> In (t, session_id) (clearInterval id ts).
Proof.
  intros Hne Hin. unfold clearInterval. apply filter_In. split; [exact Hin|].
  simpl. apply negb_true_iff, Nat.eqb_neq. congruence.
Qed.

Lemma clearInterval_subset (id : nat) (ts : list (nat * string)) (x : nat) :
  In x (map fst (clearInterval id ts)) -> In x (map fst ts).
Proof.
  unfold clearInterval. rewrite !in_map_iff. intros (e & E & Hin).
  apply filter_In in Hin. exists e. tauto.
Qed.

Lemma clear_poll_keeps (w : World) (t : nat) (session_id : string) :
  pollInterval w <> Some t -> In (t, session_id) (timers w) ->
  In (t, session_id) (clear_poll w).
Proof.
  intros Hp Hin. unfold clear_poll. destruct (pollInterval w) as [p|]; [|exact Hin].
  apply clearInterval_keeps; [congruence | exact Hin].
Qed.

Lemma clear_poll_subset (w : World) (x : nat) :
  In x (map fst (clear_poll w)) -> In x (map fst (timers w)).
Proof.
  unfold clear_poll. destruct (pollInterval w); [apply clearInterval_subset | trivial].
Qed.

Lemma lookup_In (t : nat) (session_id : string) (ts : list (nat * string)) :
  In (t, session_id) ts -> lookup t ts <> None.
Proof.
  induction ts as [|[k v] ts IH]; intros Hin; [contradiction|].
  simpl. destruct (Nat.eqb_spec k t) as [->|Hne]; [discriminate|].
  destruct Hin as [E|Hin]; [congruence | now apply IH].
Qed.

(** An interval that runs without being the one held in [pollInterval]
    survives every event. *)
Lemma leak_step (w w' : World) (e : Event) (t : nat) (session_id : string) :
  timers_fresh w -> In (t, session_id) (timers w) -> pollInterval w <> Some t ->
  step w e = Some w' ->
  timers_fresh w' /\ In (t, session_id) (timers w') /\ pollInterval w' <> Some t.
Proof.
  intros [Hfresh Hhandle] Hin Hp Hstep.
  pose proof (clear_poll_keeps w t session_id Hp Hin) as Hkeep.
  pose proof (clear_poll_subset w) as Hsub.
  assert (Hclear : forall u pe nr cs,
            timers_fresh (mkWorld u (pollInterval w) (clear_poll w) (next_timer w) pe nr cs)
            /\ In (t, session_id) (clear_poll w) /\ pollInterval w <> Some t).
  { intros. repeat split; try assumption; cbn; auto. }
  assert (Hsame : forall u pe nr cs,
            timers_fresh (mkWorld u (pollInterval w) (timers w) (next_timer w) pe nr cs)
            /\ In (t, session_id) (timers w) /\ pollInterval w <> Some t).
  { intros. repeat split; try assumption; cbn; auto. }
  assert (Hgen : timers_fresh (handleGenerate w)
                 /\ In (t, session_id) (timers (handleGenerate w))
                 /\ pollInterval (handleGenerate w) <> Some t).
  { unfold handleGenerate. destruct (uploadedFiles (ui w)).
    - repeat split; assumption.
    - apply Hclear. }
  destruct e as [files|path| | | |k|id fetched]; simpl in Hstep.
  - inversion Hstep; subst w'. apply Hclear.
  - inversion Hstep; subst w'. apply Hsame.
  - inversion Hstep; subst w'. apply Hsame.
  - inversion Hstep; subst w'. exact Hgen.
  - destruct (generate_enabled w); [|discriminate].
    inversion Hstep; subst w'. exact Hgen.
  - destruct (lookup k (timers w)); [|discriminate].
    inversion Hstep; subst w'. apply Hsame.
  - destruct (lookup id (pending w)) as [a|]; [|discriminate].
    inversion Hstep; subst w'; clear Hstep.
    destruct a as [|sid|].
    + unfold upload_settled. cbn [ui timers next_timer pollInterval pending next_request calls].
      destruct (uploadAndProcessFile fetched) as [result|m]; [|apply Hsame].
      assert (Ht : t < next_timer w).
      { apply Hfresh. apply in_map_iff. exists (t, session_id). now split. }
      repeat split; cbn.
      * intros x Hx. rewrite map_app in Hx. apply in_app_or in Hx.
        destruct Hx as [Hx|[<-|[]]]; [apply Hfresh in Hx|]; simpl; lia.
      * intros p E. inversion E. lia.
      * apply in_or_app. now left.
      * intros E. inversion E. lia.
    + unfold status_settled. cbn [ui].
      destruct (checkJobStatus fetched) as [statusResult|m].
      * destruct (match prop statusResult "status" with
                  | Some st => String.eqb st "complete"
                  | None => false
                  end); [|apply Hsame].
        destruct (truthy (prop statusResult "tree_url")); apply Hclear.
      * apply Hclear.
    + unfold tree_settled. destruct fetched as [m|r]; [apply Hsame|].
      destruct (json r); apply Hsame.
Qed.

Lemma fresh_step (w w' : World) (e : Event) :
  timers_fresh w -> step w e = Some w' -> timers_fresh w'.
Proof.
  intros [Hfresh Hhandle] Hstep.
  pose proof (clear_poll_subset w) as Hsub.
  assert (Hclear : forall u pe nr cs,
            timers_fresh (mkWorld u (pollInterval w) (clear_poll w) (next_timer w) pe nr cs)).
  { intros. split; cbn; auto. }
  assert (Hsame : forall u pe nr cs,
            timers_fresh (mkWorld u (pollInterval w) (timers w) (next_timer w) pe nr cs)).
  { intros. split; cbn; auto. }
  assert (Hgen : timers_fresh (handleGenerate w)).
  { unfold handleGenerate. destruct (uploadedFiles (ui w)); [now split | apply Hclear]. }
  destruct e as [files|path| | | |k|id fetched]; simpl in Hstep.
  - inversion Hstep; subst w'. apply Hclear.
  - inversion Hstep; subst w'. apply Hsame.
  - inversion Hstep; subst w'. apply Hsame.
  - inversion Hstep; subst w'. exact Hgen.
  - destruct (generate_enabled w); [|discriminate].
    inversion Hstep; subst w'. exact Hgen.
  - destruct (lookup k (timers w)); [|discriminate].
    inversion Hstep; subst w'. apply Hsame.
  - destruct (lookup id (pending w)) as [a|]; [|discriminate].
    inversion Hstep; subst w'; clear Hstep.
    destruct a as [|sid|].
    + unfold upload_settled. cbn [ui timers next_timer pollInterval pending next_request calls].
      destruct (uploadAndProcessFile fetched) as [result|m]; [|apply Hsame].
      split; cbn.
      * intros x Hx. rewrite map_app in Hx. apply in_app_or in Hx.
        destruct Hx as [Hx|[<-|[]]]; [apply Hfresh in Hx|]; simpl; lia.
      * intros p E. inversion E. lia.
    + unfold status_settled. cbn [ui].
      destruct (checkJobStatus fetched) as [statusResult|m]; [|apply Hclear].
      destruct (match prop statusResult "status" with
                | Some st => String.eqb st "complete"
                | None => false
                end); [|apply Hsame].
      destruct (truthy (prop statusResult "tree_url")); apply Hclear.
    + unfold tree_settled. destruct fetched as [m|r]; [apply Hsame|].
      destruct (json r); apply Hsame.
Qed.

Lemma fresh_run (events : list Event) : forall w w' : World,
  timers_fresh w -> run events w = Some w' -> timers_fresh w'.
Proof.
  induction events as [|e events IH]; intros w w' Hinv Hrun.
  - now inversion Hrun; subst.
  - simpl in Hrun. destruct (step w e) as [w1|] eqn:Hstep; [|discriminate].
    exact (IH w1 w' (fresh_step w w1 e Hinv Hstep) Hrun).
Qed.

Lemma leak_run (events : list Event) :
  forall (w w' : World) (t : nat) (session_id : string),
  timers_fresh w ->
  In (t, session_id) (timers w) ->
  pollInterval w <> Some t ->
  run events w = Some w' ->
  In (t, session_id) (timers w')
  /\ pollInterval w' <> Some t
  /\ step w' (Tick t) <> None.
Proof.
  induction events as [|e events IH]; intros w w' t sid Hfresh Hin Hp Hrun.
  - inversion Hrun; subst w'. split; [exact Hin|]. split; [exact Hp|].
    simpl. pose proof (lookup_In t sid (timers w) Hin).
    destruct (lookup t (timers w)); [discriminate | contradiction].
  - simpl in Hrun. destruct (step w e) as [w1|] eqn:Hstep; [|discriminate].
    destruct (leak_step w w1 e t sid Hfresh Hin Hp Hstep) as (H1 & H2 & H3).
    exact (IH w1 w' t sid H1 H2 H3 Hrun).
Qed.

(** X15. Once a state reached from the initial one has an interval running
    that is not the one held in [pollInterval], that interval is never
    cleared: whatever events follow (resets, new submissions, responses), it
    is still running, still not the one held, and its next tick still
    issues a status request. *)
Theorem leaked_interval_is_never_cleared (before after : list Event) (w w' : World)
    (t : nat) (session_id : string) :
  run before initial = Some w ->
  In (t, session_id) (timers w) ->
  pollInterval w <> Some t ->
  run after w = Some w' ->
  In (t, session_id) (timers w')
  /\ pollInterval w' <> Some t
  /\ step w' (Tick t) <> None.
Proof.
  intros Hbefore Hin Hp Hafter.
  apply (leak_run after w w' t session_id); try assumption.
  apply (fresh_run before initial w); [|exact Hbefore].
  split; cbn; [intros x [] | discriminate].
Qed.

Lemma leaked_interval_is_never_cleared_witness :
  exists w w',
    run double_submit initial = Some w
    /\ run [FilesChange ["next.pdf"]; Generate;
            Settle 2 (ok_json [("session_id", "job-3")]); FilesChange []] w = Some w'
    /\ In (1, "job-1") (timers w')
    /\ step w' (Tick 1) <> None.
Proof.
  eexists. eexists. split; [vm_compute; reflexivity|]. split; [vm_compute; reflexivity|].
  match goal with
  | |- In _ (timers ?w1) /\ _ =>
      destruct (leaked_interval_is_never_cleared double_submit
                  [FilesChange ["next.pdf"]; Generate;
                   Settle 2 (ok_json [("session_id", "job-3")]); FilesChange []]
                  (mkWorld
                     (mkState ["paper.pdf"] true None None
                        (Some "Processing... (Job ID: job-2)") None None)
                     (Some 2) [(1, "job-1"); (2, "job-2")] 3 [] 2
                     [CallUpload "paper.pdf"; CallUpload "paper.pdf"])
                  w1 1 "job-1") as (H1 & _ & H3)
  end.
  - vm_compute. reflexivity.
  - now left.
  - discriminate.
  - vm_compute. reflexivity.
  - split; assumption.
Defined.

(** The calls a run adds. *)
Lemma calls_step (w w' : World) (e : Event) :
  step w e = Some w' ->
  List.length (filter is_status (calls w'))
  = List.length (filter is_status (calls w)) + (if is_tick e then 1 else 0)
  /\ exists added, calls w' = (calls w ++ added)%list /\ List.length added <= 1.
Proof.
  intros Hstep.
  assert (Hsame : forall u p ts nt pe nr,
            List.length (filter is_status (calls (mkWorld u p ts nt pe nr (calls w))))
            = List.length (filter is_status (calls w)) + 0
            /\ exists added, calls (mkWorld u p ts nt pe nr (calls w)) = (calls w ++ added)%list
                             /\ List.length added <= 1).
  { intros. cbn. split; [lia|]. exists []. rewrite app_nil_r. split; [reflexivity | simpl; lia]. }
  assert (Hgen : List.length (filter is_status (calls (handleGenerate w)))
                 = List.length (filter is_status (calls w)) + 0
                 /\ exists added, calls (handleGenerate w) = (calls w ++ added)%list
                                  /\ List.length added <= 1).
  { unfold handleGenerate. destruct (uploadedFiles (ui w)) as [|f rest].
    - split; [lia|]. exists []. rewrite app_nil_r. split; [reflexivity | simpl; lia].
    - cbn. rewrite filter_app, length_app. simpl. split; [lia|].
      exists [CallUpload f]. split; [reflexivity | simpl; lia]. }
  destruct e as [files|path| | | |k|id fetched]; simpl in Hstep; cbn [is_tick].
  - inversion Hstep; subst w'. apply Hsame.
  - inversion Hstep; subst w'. apply Hsame.
  - inversion Hstep; subst w'. apply Hsame.
  - inversion Hstep; subst w'. exact Hgen.
  - destruct (generate_enabled w); [|discriminate].
    inversion Hstep; subst w'. exact Hgen.
  - destruct (lookup k (timers w)) as [sid|]; [|discriminate].
    inversion Hstep; subst w'. cbn. rewrite filter_app, length_app. simpl.
    split; [lia|]. exists [CallStatus sid]. split; [reflexivity | simpl; lia].
  - destruct (lookup id (pending w)) as [a|]; [|discriminate].
    inversion Hstep; subst w'; clear Hstep.
    destruct a as [|sid|].
    + unfold upload_settled. cbn [ui timers next_timer pollInterval pending next_request calls].
      destruct (uploadAndProcessFile fetched); apply Hsame.
    + unfold status_settled. cbn [ui].
      destruct (checkJobStatus fetched) as [statusResult|m]; [|apply Hsame].
      destruct (match prop statusResult "status" with
                | Some st => String.eqb st "complete"
                | None => false
                end); [|apply Hsame].
      destruct (truthy (prop statusResult "tree_url")); [|apply Hsame].
      cbn. rewrite filter_app, length_app. simpl. split; [lia|].
      eexists [_]. split; [reflexivity | simpl; lia].
    + unfold tree_settled. destruct fetched as [m|r]; [apply Hsame|].
      destruct (json r); apply Hsame.
Qed.

(** X16. Status requests are issued by the ticks of running intervals and
    by nothing else, one per tick: over any run, the number of status calls
    grows by exactly the number of ticks.  The log of calls only grows, by
    at most one call per event. *)
Theorem status_calls_are_the_ticks (events : list Event) : forall w w' : World,
  run events w = Some w' ->
  List.length (filter is_status (calls w'))
  = List.length (filter is_status (calls w)) + List.length (filter is_tick events)
  /\ exists added,
       calls w' = (calls w ++ added)%list /\ List.length added <= List.length events.
Proof.
  induction events as [|e events IH]; intros w w' Hrun.
  - inversion Hrun; subst w'. split; [simpl; lia|].
    exists []. rewrite app_nil_r. split; [reflexivity | simpl; lia].
  - simpl in Hrun. destruct (step w e) as [w1|] eqn:Hstep; [|discriminate].
    destruct (calls_step w w1 e Hstep) as (H1 & a1 & E1 & L1).
    destruct (IH w1 w' Hrun) as (H2 & a2 & E2 & L2).
    split.
    + rewrite H2, H1. simpl. destruct (is_tick e); simpl; lia.
    + exists (a1 ++ a2)%list. rewrite E2, E1, <- app_assoc. split; [reflexivity|].
      rewrite length_app. simpl. lia.
Qed.

Lemma status_calls_are_the_ticks_witness :
  exists w,
    run double_submit_by_button initial = Some w
    /\ List.length (filter is_status (calls w)) = 2.
Proof.
  eexists. split; [vm_compute; reflexivity|].
  refine (proj1 (status_calls_are_the_ticks double_submit_by_button initial _ _)).
  vm_compute. reflexivity.
Defined.

Lemma loading_step (w w' : World) (e : Event) :
  loading_without_download w -> step w e = Some w' -> loading_without_download w'.
Proof.
  unfold loading_without_download. intros Hinv Hstep.
  assert (Hgen : isLoading (ui (handleGenerate w)) = true ->
                 downloadUrl (ui (handleGenerate w)) = None).
  { unfold handleGenerate. destruct (uploadedFiles (ui w)); [exact Hinv | reflexivity]. }
  destruct e as [files|path| | | |k|id fetched]; simpl in Hstep.
  - inversion Hstep; subst w'. reflexivity.
  - inversion Hstep; subst w'. exact Hinv.
  - inversion Hstep; subst w'. exact Hinv.
  - inversion Hstep; subst w'. exact Hgen.
  - destruct (generate_enabled w); [|discriminate].
    inversion Hstep; subst w'. exact Hgen.
  - destruct (lookup k (timers w)); [|discriminate].
    inversion Hstep; subst w'. exact Hinv.
  - destruct (lookup id (pending w)) as [a|]; [|discriminate].
    inversion Hstep; subst w'; clear Hstep.
    destruct a as [|sid|].
    + unfold upload_settled. cbn [ui].
      destruct (uploadAndProcessFile fetched); cbn; [exact Hinv | discriminate].
    + unfold status_settled. cbn [ui].
      destruct (checkJobStatus fetched) as [statusResult|m]; [|cbn; discriminate].
      destruct (match prop statusResult "status" with
                | Some st => String.eqb st "complete"
                | None => false
                end); [|exact Hinv].
      destruct (truthy (prop statusResult "tree_url")); cbn; discriminate.
    + unfold tree_settled. destruct fetched as [m|r]; [exact Hinv|].
      destruct (json r); exact Hinv.
Qed.

Lemma loading_run (events : list Event) : forall w w' : World,
  loading_without_download w -> run events w = Some w' -> loading_without_download w'.
Proof.
  induction events as [|e events IH]; intros w w' Hinv Hrun.
  - now inversion Hrun; subst.
  - simpl in Hrun. destruct (step w e) as [w1|] eqn:Hstep; [|discriminate].
    exact (IH w1 w' (loading_step w w1 e Hinv Hstep) Hrun).
Qed.

(** X17. In every state reached from the initial one, whatever the events,
    no download URL is set while loading, and the upload view shows exactly
    one of its two buttons: the download link when a download URL is set,
    the Generate button otherwise; the link, when shown, is the download URL
    of the state. *)
Theorem upload_view_shows_one_button (events : list Event) (w : World) :
  run events initial = Some w ->
  (isLoading (ui w) = true -> downloadUrl (ui w) = None)
  /\ ((UploadView.download_link (UploadView.UploadView (ui w)) = downloadUrl (ui w)
       /\ truthy (downloadUrl (ui w)) = true
       /\ UploadView.generate_button (UploadView.UploadView (ui w)) = None)
      \/ (UploadView.download_link (UploadView.UploadView (ui w)) = None
          /\ UploadView.generate_button (UploadView.UploadView (ui w)) <> None)).
Proof.
  intros Hrun.
  assert (Hinv : loading_without_download w).
  { apply (loading_run events initial w); [|exact Hrun]. intros H. discriminate. }
  split; [exact Hinv|].
  unfold UploadView.UploadView. cbn [UploadView.download_link UploadView.generate_button].
  destruct (truthy (downloadUrl (ui w))) eqn:Hd.
  - left. destruct (isLoading (ui w)) eqn:Hl.
    + rewrite (Hinv Hl) in Hd. discriminate.
    + repeat split.
  - right. split; [reflexivity | discriminate].
Qed.

Lemma upload_view_shows_one_button_witness :
  exists w,
    run (three_polls "paper.pdf" "job-1" "/t.json" (NetworkError "Failed to fetch")) initial
    = Some w
    /\ UploadView.download_link (UploadView.UploadView (ui w))
       = Some "http://localhost:8000/download-result/job-1"
    /\ UploadView.generate_button (UploadView.UploadView (ui w)) = None
    /\ UploadView.error_text (UploadView.UploadView (ui w))
       = Some "Processing complete, but failed to load results tree.".
Proof.
  eexists. split; [vm_compute; reflexivity|].
  match goal with
  | |- UploadView.download_link (UploadView.UploadView (ui ?w1)) = _ /\ _ =>
      destruct (upload_view_shows_one_button
                  (three_polls "paper.pdf" "job-1" "/t.json" (NetworkError "Failed to fetch"))
                  w1) as [_ [(H1 & _ & H2) | (H1 & _)]]
  end.
  - vm_compute. reflexivity.
  - split; [rewrite H1; reflexivity|]. split; [exact H2 | reflexivity].
  - discriminate H1.
Defined.

(** ** The screens *)

(** X18. Opening a file shows the viewer on that path and closing it shows
    the upload view exactly as it was; neither touches the job (intervals,
    handle, requests in flight, calls), so polling goes on while a file is
    viewed.  An empty path opens nothing.  The Generate button can be
    clicked exactly when the upload view is on screen and shows the button
    enabled. *)
Theorem viewer_opens_and_closes (w : World) (path : string) :
  (path <> "" ->
   MainContent.MainContent (ui (handleFileClick path w))
   = MainContent.ViewerScreen path (FileViewer.FileViewer path))
  /\ MainContent.MainContent (ui (handleFileClick "" w))
     = MainContent.UploadScreen (UploadView.UploadView (ui w))
  /\ MainContent.MainContent (ui (handleCloseViewer (handleFileClick path w)))
     = MainContent.UploadScreen (UploadView.UploadView (ui w))
  /\ (selectedFile (ui w) = None -> handleCloseViewer (handleFileClick path w) = w)
  /\ (timers (handleFileClick path w) = timers w
      /\ pollInterval (handleFileClick path w) = pollInterval w
      /\ pending (handleFileClick path w) = pending w
      /\ calls (handleFileClick path w) = calls w)
  /\ (generate_enabled w = true <->
      exists label,
        MainContent.MainContent (ui w)
        = MainContent.UploadScreen (UploadView.UploadView (ui w))
        /\ UploadView.generate_button (UploadView.UploadView (ui w)) = Some (false, label)).
Proof.
  destruct w as [[uf il er ft sm du sf] p ts nt pe nr cs].
  split; [|split; [|split; [|split; [|split]]]].
  - intros Hne. unfold MainContent.MainContent. cbn.
    apply String.eqb_neq in Hne. now rewrite Hne.
  - reflexivity.
  - reflexivity.
  - cbn. intros ->. reflexivity.
  - repeat split.
  - unfold generate_enabled, MainContent.MainContent, UploadView.UploadView. cbn.
    destruct (truthy sf), (truthy du), il, uf; cbn; split;
      try discriminate; try (intros (label & H1 & H2); discriminate);
      intros _; eexists; split; reflexivity.
Qed.

Lemma viewer_opens_and_closes_witness :
  MainContent.MainContent (ui (handleFileClick "job-1/report.docx" polling_world))
  = MainContent.ViewerScreen "job-1/report.docx"
      (FileViewer.view_of FileViewer.OfficeViewer "job-1/report.docx")
  /\ handleCloseViewer (handleFileClick "job-1/report.docx" polling_world) = polling_world
  /\ generate_enabled (handleFilesChange ["paper.pdf"] initial) = true.
Proof.
  destruct (viewer_opens_and_closes polling_world "job-1/report.docx")
    as (H1 & _ & _ & H4 & _).
  destruct (viewer_opens_and_closes (handleFilesChange ["paper.pdf"] initial) "")
    as (_ & _ & _ & _ & _ & H6).
  split; [rewrite H1; [reflexivity | discriminate]|].
  split; [apply H4; reflexivity|].
  apply H6. eexists. split; reflexivity.
Defined.

(** ** The uploader *)

Lemma splice1_nth {A : Type} (index j : nat) (l : list A) :
  index < List.length l ->
  nth_error (FileUploader.splice1 index l) j
  = nth_error l (if Nat.ltb j index then j else S j).
Proof.
  intros Hi. unfold FileUploader.splice1.
  assert (Hlen : List.length (firstn index l) = index)
    by (rewrite length_firstn; lia).
  destruct (Nat.ltb_spec j index) as [Hlt|Hge].
  - rewrite nth_error_app1 by lia. rewrite nth_error_firstn.
    destruct (Nat.ltb_spec j index); [reflexivity | lia].
  - rewrite nth_error_app2 by lia. rewrite nth_error_skipn, Hlen.
    f_equal. lia.
Qed.

(** X19. Removing the file at a valid index leaves the other files in
    their order, one fewer, and goes through [handleFilesChange] like a new
    selection: the results of the job are cleared and [isLoading] is left
    as it was.  An index past the end removes nothing but still resets.  A
    drop or a choice of no file at all changes nothing. *)
Theorem remove_file_keeps_the_others (w : World) (index : nat) :
  (index < List.length (uploadedFiles (ui w)) ->
   List.length (uploadedFiles (ui (FileUploader.handleRemoveFile index w)))
   = List.length (uploadedFiles (ui w)) - 1
   /\ forall j,
        nth_error (uploadedFiles (ui (FileUploader.handleRemoveFile index w))) j
        = nth_error (uploadedFiles (ui w)) (if Nat.ltb j index then j else S j))
  /\ (List.length (uploadedFiles (ui w)) <= index ->
      uploadedFiles (ui (FileUploader.handleRemoveFile index w)) = uploadedFiles (ui w))
  /\ (downloadUrl (ui (FileUploader.handleRemoveFile index w)) = None
      /\ fileTree (ui (FileUploader.handleRemoveFile index w)) = None
      /\ error (ui (FileUploader.handleRemoveFile index w)) = None
      /\ isLoading (ui (FileUploader.handleRemoveFile index w)) = isLoading (ui w))
  /\ FileUploader.handleDrop [] w = w
  /\ FileUploader.handleFileChange [] w = w.
Proof.
  unfold FileUploader.handleRemoveFile, handleFilesChange. cbn [ui with_timers with_ui uploadedFiles].
  split; [|split; [|split; [|split]]]; try reflexivity.
  - intros Hi. split.
    + unfold FileUploader.splice1. rewrite length_app, length_firstn, length_skipn. lia.
    + intros j. now apply splice1_nth.
  - intros Hi. unfold FileUploader.splice1.
    rewrite firstn_all2 by exact Hi. rewrite skipn_all2 by lia. apply app_nil_r.
  - repeat split.
Qed.

Lemma remove_file_keeps_the_others_witness :
  uploadedFiles (ui (FileUploader.handleRemoveFile 1
     (FileUploader.handleDrop ["a.pdf"; "b.pdf"; "c.pdf"] initial))) = ["a.pdf"; "c.pdf"]
  /\ List.length (uploadedFiles (ui (FileUploader.handleRemoveFile 1
        (FileUploader.handleDrop ["a.pdf"; "b.pdf"; "c.pdf"] initial)))) = 2
  /\ uploadedFiles (ui (FileUploader.handleRemoveFile 7
        (FileUploader.handleDrop ["a.pdf"; "b.pdf"; "c.pdf"] initial)))
     = ["a.pdf"; "b.pdf"; "c.pdf"].
Proof.
  destruct (remove_file_keeps_the_others
              (FileUploader.handleDrop ["a.pdf"; "b.pdf"; "c.pdf"] initial) 1)
    as (H1 & _).
  destruct (remove_file_keeps_the_others
              (FileUploader.handleDrop ["a.pdf"; "b.pdf"; "c.pdf"] initial) 7)
    as (_ & H2 & _).
  assert (Hi : 1 < List.length (uploadedFiles (ui
            (FileUploader.handleDrop ["a.pdf"; "b.pdf"; "c.pdf"] initial))))
    by (simpl; lia).
  destruct (H1 Hi) as [Hlen _].
  split; [reflexivity|]. split; [exact Hlen|].
  apply H2. simpl. lia.
Defined.

(** ** The sidebar *)

Lemma folder_rows (isOpen : list nat -> bool) (position : list nat) (level : nat)
    (name : string) (path : option string) (cs : list FileTree) :
  Sidebar.FileTreeNode isOpen position level (mkFileTree name Folder path (Some cs))
  = Sidebar.FolderRow (level * 16) name (isOpen position)
    :: (if isOpen position then Sidebar.children_rows isOpen position level 0 cs else []).
Proof.
  cbn [Sidebar.FileTreeNode]. f_equal. destruct (isOpen position); [|reflexivity].
  set (below := level + 1).
  generalize 0. induction cs as [|c cs IH]; intros i; [reflexivity|].
  cbn [Sidebar.children_rows]. rewrite <- IH. reflexivity.
Qed.

Lemma closed_node (position : list nat) (node : FileTree) :
  Sidebar.FileTreeNode (fun _ => false) position 0 node = [Sidebar.closed_row node].
Proof. destruct node as [name [] path [cs|]]; reflexivity. Qed.

Lemma closed_roots (nodes : list FileTree) : forall index : nat,
  Sidebar.roots (fun _ => false) index nodes = map Sidebar.closed_row nodes.
Proof.
  induction nodes as [|n nodes IH]; intros index; [reflexivity|].
  cbn [Sidebar.roots map]. now rewrite closed_node, IH.
Qed.

Lemma node_rows_bound (node : FileTree) :
  forall (isOpen : list nat -> bool) (position : list nat) (level : nat),
  List.length (Sidebar.FileTreeNode isOpen position level node) <= Sidebar.reachable node
  /\ List.length (Sidebar.FileTreeNode (fun _ => true) position level node)
     = Sidebar.reachable node
  /\ Forall (fun r => level * 16 <= Sidebar.row_padding r)
       (Sidebar.FileTreeNode isOpen position level node).
Proof.
  induction node using FileTree_forest_ind with
    (Q := fun cs => forall (isOpen : list nat -> bool) (position : list nat) (level index : nat),
            List.length (Sidebar.children_rows isOpen position level index cs)
            <= list_sum (map Sidebar.reachable cs)
            /\ List.length (Sidebar.children_rows (fun _ => true) position level index cs)
               = list_sum (map Sidebar.reachable cs)
            /\ Forall (fun r => (level + 1) * 16 <= Sidebar.row_padding r)
                 (Sidebar.children_rows isOpen position level index cs)).
  - intros. repeat split; constructor.
  - intros isOpen position level index. cbn [Sidebar.children_rows map].
    change (list_sum (Sidebar.reachable node :: map Sidebar.reachable l))
      with (Sidebar.reachable node + list_sum (map Sidebar.reachable l)).
    destruct (IHnode isOpen (position ++ [index])%list (level + 1)) as (H1 & H2 & H3).
    destruct (IHnode0 isOpen position level (S index)) as (H4 & H5 & H6).
    rewrite !length_app. rewrite H2, H5. split; [lia|]. split; [reflexivity|].
    apply Forall_app. split; assumption.
  - intros isOpen position level. destruct ty; cbn; [destruct (isOpen position)|];
      (split; [cbn; lia | split; [reflexivity | constructor; [cbn; lia | constructor]]]).
  - intros isOpen position level. destruct ty.
    + rewrite !folder_rows. cbn [Sidebar.reachable List.length].
      destruct (IHnode isOpen position level 0) as (H1 & H2 & H3).
      split; [destruct (isOpen position); simpl; lia|].
      split; [now rewrite H2|].
      constructor; [cbn; lia|].
      destruct (isOpen position); [|constructor].
      eapply Forall_impl; [|exact H3]. cbn. intros r Hr. lia.
    + cbn. split; [lia | split; [reflexivity | constructor; [cbn; lia | constructor]]].
Qed.

Lemma roots_rows_bound (nodes : list FileTree) :
  forall (isOpen : list nat -> bool) (index : nat),
  List.length (Sidebar.roots isOpen index nodes) <= list_sum (map Sidebar.reachable nodes)
  /\ List.length (Sidebar.roots (fun _ => true) index nodes)
     = list_sum (map Sidebar.reachable nodes).
Proof.
  induction nodes as [|n nodes IH]; intros isOpen index; [split; reflexivity|].
  cbn [Sidebar.roots map].
  change (list_sum (Sidebar.reachable n :: map Sidebar.reachable nodes))
    with (Sidebar.reachable n + list_sum (map Sidebar.reachable nodes)).
  rewrite !length_app.
  destruct (node_rows_bound n isOpen [index] 0) as (H1 & H2 & _).
  destruct (IH isOpen (S index)) as (H3 & H4).
  rewrite H2, H4. split; [lia | reflexivity].
Qed.

(** X20. The sidebar shows its placeholder when the tree is missing or
    empty.  Otherwise, with every folder closed (as they all are at first)
    it lists exactly the root nodes, in order, without indentation; however
    folders are opened it never lists more rows than there are nodes
    reachable through folders, and with every folder open it lists them
    all.  The children of a file node are never listed. *)
Theorem sidebar_rows (nodes : list FileTree) (isOpen : list nat -> bool) :
  Sidebar.Sidebar isOpen None = None
  /\ Sidebar.Sidebar isOpen (Some []) = None
  /\ (nodes <> [] ->
      Sidebar.Sidebar (fun _ => false) (Some nodes) = Some (map Sidebar.closed_row nodes)
      /\ exists rows all_rows,
           Sidebar.Sidebar isOpen (Some nodes) = Some rows
           /\ Sidebar.Sidebar (fun _ => true) (Some nodes) = Some all_rows
           /\ List.length rows <= List.length all_rows
           /\ List.length all_rows = list_sum (map Sidebar.reachable nodes))
  /\ (forall name path cs position level,
        Sidebar.FileTreeNode isOpen position level (mkFileTree name File path cs)
        = [Sidebar.FileRow (level * 16) name path]).
Proof.
  split; [reflexivity|]. split; [reflexivity|]. split; [|reflexivity].
  intros Hne. destruct nodes as [|n nodes]; [congruence|].
  unfold Sidebar.Sidebar. split; [now rewrite closed_roots|].
  do 2 eexists. split; [reflexivity|]. split; [reflexivity|].
  destruct (roots_rows_bound (n :: nodes) isOpen 0) as [H1 H2].
  rewrite H2. split; [exact H1 | reflexivity].
Qed.

Lemma sidebar_rows_witness :
  Sidebar.Sidebar (fun _ => false)
    (Some [mkFileTree "out" Folder None
             (Some [mkFileTree "report.docx" File (Some "job-1/out/report.docx") None]);
           mkFileTree "log.txt" File (Some "job-1/log.txt") None])
  = Some [Sidebar.FolderRow 0 "out" false;
          Sidebar.FileRow 0 "log.txt" (Some "job-1/log.txt")].
Proof.
  destruct (sidebar_rows
              [mkFileTree "out" Folder None
                 (Some [mkFileTree "report.docx" File (Some "job-1/out/report.docx") None]);
               mkFileTree "log.txt" File (Some "job-1/log.txt") None]
              (fun _ => false)) as (_ & _ & H & _).
  destruct H as [H _]; [discriminate|]. exact H.
Defined.

(** ** Submitting *)

(** X21. [handleGenerate] without a selected file does nothing: no state
    changes and no request is issued.  With files selected it uploads the
    first one only, whatever else is selected, resets the results, and the
    upload view then shows the Generate button disabled with the label
    [Uploading file...]: the state shown is Uploading. *)
Theorem generate_uploads_first_file (w : World) :
  (uploadedFiles (ui w) = [] -> handleGenerate w = w /\ step w ClickGenerate = None)
  /\ (forall file others, uploadedFiles (ui w) = file :: others ->
        calls (handleGenerate w) = (calls w ++ [CallUpload file])%list
        /\ pending (handleGenerate w) = (pending w ++ [(next_request w, AwaitUpload)])%list
        /\ uploadedFiles (ui (handleGenerate w)) = file :: others
        /\ downloadUrl (ui (handleGenerate w)) = None
        /\ error (ui (handleGenerate w)) = None
        /\ fileTree (ui (handleGenerate w)) = None
        /\ selectedFile (ui (handleGenerate w)) = None
        /\ UploadView.UploadView (ui (handleGenerate w))
           = UploadView.mkRendered None None (Some (true, "Uploading file..."))
        /\ phase (handleGenerate w) = Uploading).
Proof.
  split.
  - intros Hnone. unfold handleGenerate, step, generate_enabled. rewrite Hnone.
    split; [reflexivity|]. cbn. now rewrite !andb_false_r.
  - intros file others Hfiles. unfold handleGenerate. rewrite Hfiles.
    unfold phase, UploadView.UploadView.
    cbn [issue with_timers with_ui ui calls pending uploadedFiles downloadUrl error
         fileTree selectedFile isLoading statusMessage].
    repeat match goal with |- _ /\ _ => split end; try reflexivity.
    rewrite existsb_app. cbn. now rewrite orb_true_r.
Qed.

Lemma generate_uploads_first_file_witness :
  handleGenerate initial = initial
  /\ calls (handleGenerate (handleFilesChange ["a.pdf"; "b.pdf"] initial)) = [CallUpload "a.pdf"]
  /\ phase (handleGenerate (handleFilesChange ["a.pdf"; "b.pdf"] initial)) = Uploading.
Proof.
  destruct (generate_uploads_first_file initial) as [H _].
  destruct (generate_uploads_first_file (handleFilesChange ["a.pdf"; "b.pdf"] initial))
    as [_ H'].
  destruct (H eq_refl) as [H1 _].
  destruct (H' "a.pdf" ["b.pdf"] eq_refl) as (H2 & _ & _ & _ & _ & _ & _ & _ & H3).
  split; [exact H1|]. split; [exact H2 | exact H3].
Defined.
